(** * VoxelGenerator: the STL-to-voxel conversion of [VoxelGenerator.py]

    A shallow embedding of [stl_to_voxel] and [point_near_triangle] and the
    properties of the rasterisation they implement.

    Numbers.  The coordinates of a mesh are points of 3-D space: they are
    modelled as exact rationals ([Qc], rationals in canonical form, so that
    equality is Leibniz equality).  NumPy never raises on a division by zero:
    it produces an infinity or a NaN and goes on.  The values computed from
    the mesh therefore live in [np_float], the rationals extended with the
    two infinities and NaN, with the IEEE-754 rules for these special values.
    Arithmetic on finite values is exact: rounding, overflow and underflow
    are not modelled, and zero carries no sign (every zero divisor the
    program can produce, [x - x] or [0 / n] with [n > 0], is a positive
    zero).  The order of the triangles, the shape of the grid, the clamps,
    the writes and the exceptions do not depend on the rounding; the value of
    the occupancy predicate does, and the module [IEEE] gives the predicate
    bit for bit, in binary32 and binary64.

    Errors.  The program has no [raise] of its own; the exceptions it can end
    with are the ones NumPy raises, which are the constructors of [exn]. *)

From Stdlib Require Import ZArith QArith Qcanon Qround Reals Qreals Lia Lra.
From Stdlib Require SpecFloat.
From stdpp Require Import base list list_numbers numbers.

Local Open Scope Z_scope.

(** ** Exact rationals: boolean comparisons, minimum and maximum *)

Definition Qcltb (x y : Qc) : bool :=
  match Qccompare x y with Lt => true | _ => false end.

Definition Qcleb (x y : Qc) : bool :=
  match Qccompare x y with Gt => false | _ => true end.

Definition Qcmin (x y : Qc) : Qc := if Qcleb x y then x else y.
Definition Qcmax (x y : Qc) : Qc := if Qcleb x y then y else x.

(** ** NumPy floating-point values *)

Inductive np_float : Type :=
  | Fin (q : Qc)
  | PInf
  | NInf
  | NaN.

Definition of_int (n : Z) : np_float := Fin (Qc_of_Z n).

Definition fopp (a : np_float) : np_float :=
  match a with
  | Fin q => Fin (- q)%Qc
  | PInf => NInf
  | NInf => PInf
  | NaN => NaN
  end.

Definition fadd (a b : np_float) : np_float :=
  match a, b with
  | NaN, _ | _, NaN => NaN
  | Fin p, Fin q => Fin (p + q)%Qc
  | PInf, NInf | NInf, PInf => NaN
  | PInf, _ | _, PInf => PInf
  | NInf, _ | _, NInf => NInf
  end.

Definition fsub (a b : np_float) : np_float := fadd a (fopp b).

(** An infinity with the sign of [c], NaN when [c] says zero. *)
Definition inf_of_sign (c : comparison) : np_float :=
  match c with Gt => PInf | Lt => NInf | Eq => NaN end.

Definition sign (a : np_float) : comparison :=
  match a with
  | Fin q => Qccompare q 0%Qc
  | PInf => Gt
  | NInf => Lt
  | NaN => Eq
  end.

Definition sign_mul (c d : comparison) : comparison :=
  match c, d with
  | Eq, _ | _, Eq => Eq
  | Gt, Gt | Lt, Lt => Gt
  | _, _ => Lt
  end.

Definition fmul (a b : np_float) : np_float :=
  match a, b with
  | NaN, _ | _, NaN => NaN
  | Fin p, Fin q => Fin (p * q)%Qc
  | _, _ => inf_of_sign (sign_mul (sign a) (sign b))
  end.

(** Division: [x / 0] is an infinity with the sign of [x], [0 / 0] and
    [inf / inf] are NaN, a finite value over an infinity is zero. *)
Definition fdiv (a b : np_float) : np_float :=
  match a, b with
  | NaN, _ | _, NaN => NaN
  | Fin p, Fin q =>
      match Qccompare q 0%Qc with
      | Eq => inf_of_sign (Qccompare p 0%Qc)
      | _ => Fin (p / q)%Qc
      end
  | Fin _, _ => Fin 0%Qc
  | _, Fin q =>
      match Qccompare q 0%Qc with
      | Lt => fopp a
      | _ => a
      end
  | _, _ => NaN
  end.

(** [np.floor] and [np.ceil] keep the special values. *)
Definition ffloor (a : np_float) : np_float :=
  match a with Fin q => of_int (Qfloor q) | _ => a end.

Definition fceil (a : np_float) : np_float :=
  match a with Fin q => of_int (Qceiling q) | _ => a end.

Definition INT64_MIN : Z := - 2 ^ 63.
Definition INT64_MAX : Z := 2 ^ 63 - 1.

(** [.astype(int)]: the C conversion to a signed 64-bit integer.  A finite
    value is truncated toward zero; NaN, the infinities and the values out of
    range give the "integer indefinite" value [INT64_MIN], which is what the
    conversion instruction of x86-64 returns for them. *)
Definition astype_int (a : np_float) : Z :=
  match a with
  | Fin q =>
      let z := Z.quot (Qnum q) (Zpos (Qden q)) in
      if (INT64_MIN <=? z) && (z <=? INT64_MAX) then z else INT64_MIN
  | _ => INT64_MIN
  end.

Definition is_nan (a : np_float) : bool :=
  match a with NaN => true | _ => false end.

(** [a <= b]: false as soon as one side is NaN. *)
Definition fleb (a b : np_float) : bool :=
  match a, b with
  | NaN, _ | _, NaN => false
  | Fin p, Fin q => Qcleb p q
  | NInf, _ | _, PInf => true
  | _, _ => false
  end.

(** The reduction [.max()] of NumPy propagates NaN. *)
Definition fmax (a b : np_float) : np_float :=
  if is_nan a then a else if is_nan b then b else if fleb a b then b else a.

(** ** Square roots

    [np.linalg.norm] returns the square root of a sum of squares, which need
    not be rational.  The root is kept exactly, as its radicand: [Sqrt r]
    stands for the IEEE square root of [r] (NaN for a negative [r]). *)

Record np_root : Type := Sqrt { radicand : np_float }.

Definition root_is_nan (d : np_root) : bool :=
  match radicand d with
  | Fin q => Qcltb q 0%Qc
  | PInf => false
  | NInf | NaN => true
  end.

(** [d1 <= d2] on roots that are not NaN: the square root is monotone. *)
Definition root_min (d1 d2 : np_root) : np_root :=
  if root_is_nan d1 then d1
  else if root_is_nan d2 then d2
  else if fleb (radicand d1) (radicand d2) then d1 else d2.

(** [sqrt r < t], decided without leaving the rationals:
    for [0 <= r], [sqrt r < t] iff [0 < t] and [r < t * t]. *)
Definition root_ltb (d : np_root) (t : np_float) : bool :=
  if root_is_nan d then false
  else
    match radicand d, t with
    | Fin r, Fin b => Qcltb 0%Qc b && Qcltb r (b * b)%Qc
    | Fin _, PInf => true
    | _, _ => false
    end.

(** ** Arrays of shape (3,) and (3, 3) *)

Record vec3 (A : Type) : Type := V3 { ax0 : A; ax1 : A; ax2 : A }.
Arguments V3 {A} _ _ _.
Arguments ax0 {A} _.
Arguments ax1 {A} _.
Arguments ax2 {A} _.

Definition vmap {A B} (f : A → B) (v : vec3 A) : vec3 B :=
  V3 (f (ax0 v)) (f (ax1 v)) (f (ax2 v)).

Definition vzip {A B C} (f : A → B → C) (u : vec3 A) (v : vec3 B) : vec3 C :=
  V3 (f (ax0 u) (ax0 v)) (f (ax1 u) (ax1 v)) (f (ax2 u) (ax2 v)).

(** A point of the mesh, a triangle (one row per vertex) and a mesh. *)
Abbreviation Point := (vec3 Qc).
Abbreviation Triangle := (vec3 (vec3 Qc)).
Abbreviation Mesh := (list (vec3 (vec3 Qc))).

Definition vertices (t : Triangle) : list Point := [ax0 t; ax1 t; ax2 t].

(** ** Exceptions and the error monad *)

Inductive exn : Type :=
  | ValueError_zero_size_reduction
      (* "zero-size array to reduction operation minimum which has no identity" *)
  | ValueError_negative_dimensions
      (* "negative dimensions are not allowed" *)
  | IndexError_out_of_bounds.
      (* "index i is out of bounds for axis a with size n" *)

Inductive result (A : Type) : Type :=
  | Ok (a : A)
  | Raise (e : exn).
Arguments Ok {A} _.
Arguments Raise {A} _.

Global Instance result_ret : MRet result := λ A a, Ok a.

Global Instance result_bind : MBind result := λ A B f m,
  match m with Ok a => f a | Raise e => Raise e end.

(** A [for] loop over [l] that threads the state [s] and stops at the first
    exception. *)
Fixpoint for_each {A S} (l : list A) (body : S → A → result S) (s : S)
  : result S :=
  match l with
  | [] => Ok s
  | a :: l' => s' ← body s a; for_each l' body s'
  end.

(** Python's [range(lo, hi + 1)]. *)
Definition range_incl (lo hi : Z) : list Z := seqZ lo (hi + 1 - lo).

(** ** The voxel grid

    A boolean array of shape (n, n, n), stored as nested lists: [g !! i] is
    the plane [voxel_grid[i]], and so on. *)

Abbreviation VoxelGrid := (list (list (list bool))).

(** [np.zeros((n, n, n), dtype=bool)].  NumPy refuses a negative dimension;
    memory is taken to be unbounded. *)
Definition np_zeros (n : Z) : result VoxelGrid :=
  if n <? 0 then Raise ValueError_negative_dimensions
  else
    let n' := Z.to_nat n in
    Ok (replicate n' (replicate n' (replicate n' false))).

(** An integer index into an axis of [size] cells: NumPy counts a negative
    index from the end and raises [IndexError] outside [-size, size). *)
Definition np_index (size : nat) (i : Z) : result nat :=
  if (0 <=? i) && (i <? Z.of_nat size) then Ok (Z.to_nat i)
  else if (- Z.of_nat size <=? i) && (i <? 0) then Ok (Z.to_nat (i + Z.of_nat size))
  else Raise IndexError_out_of_bounds.

(** [voxel_grid[i, j, k] = True] *)
Definition grid_set (g : VoxelGrid) (i j k : Z) : result VoxelGrid :=
  i' ← np_index (length g) i;
  j' ← np_index (length (g !!! i')) j;
  k' ← np_index (length ((g !!! i') !!! j')) k;
  Ok (alter (alter (<[k' := true]>) j') i' g).

(** Reading the grid: [get g i j k] is [None] outside it. *)
Definition get (g : VoxelGrid) (i j k : nat) : option bool :=
  plane ← g !! i; row ← plane !! j; row !! k.

(** The cell [(i, j, k)] of a grid, for indices counted from 0; a cell outside
    the grid reads as [false]. *)
Definition cell (g : VoxelGrid) (c : Z * Z * Z) : bool :=
  let '(i, j, k) := c in
  if (0 <=? i) && (0 <=? j) && (0 <=? k) then
    default false (get g (Z.to_nat i) (Z.to_nat j) (Z.to_nat k))
  else false.

(** A grid of shape (n, n, n). *)
Definition cube (n : nat) (g : VoxelGrid) : Prop :=
  length g = n ∧
  Forall (fun plane =>
            length plane = n ∧ Forall (fun row => length row = n) plane) g.

(** The number of cells of a grid ([voxel_grid.size]). *)
Definition size (g : VoxelGrid) : nat := length (mjoin (mjoin g)).

(** ** [point_near_triangle] *)

(** [np.linalg.norm] of one row: [sqrt(add.reduce(x * x))]. *)
Definition norm (w : vec3 np_float) : np_root :=
  Sqrt (fadd (fadd (fmul (ax0 w) (ax0 w)) (fmul (ax1 w) (ax1 w)))
             (fmul (ax2 w) (ax2 w))).

(** The reductions [.min()] and [.max()] over an array of three values. *)
Definition root_min3 (d : vec3 np_root) : np_root :=
  root_min (root_min (ax0 d) (ax1 d)) (ax2 d).

Definition fmax3 (v : vec3 np_float) : np_float :=
  fmax (fmax (ax0 v) (ax1 v)) (ax2 v).

Definition point_near_triangle
    (point : vec3 np_float) (triangle : Triangle) (threshold : np_float)
  : bool :=
  (* distances = np.linalg.norm(triangle - point, axis=1) *)
  let distances :=
    vmap (fun vertex => norm (vzip fsub (vmap Fin vertex) point)) triangle in
  (* return distances.min() < threshold * 2 *)
  root_ltb (root_min3 distances) (fmul threshold (of_int 2)).

(** ** [stl_to_voxel] *)

(** [a.min(axis=0)] and [a.max(axis=0)] for an array [a] of shape (n, 3);
    NumPy raises [ValueError] when [n = 0]. *)
Definition np_min_axis0 (a : list Point) : result Point :=
  match a with
  | [] => Raise ValueError_zero_size_reduction
  | p :: ps => Ok (foldl (vzip Qcmin) p ps)
  end.

Definition np_max_axis0 (a : list Point) : result Point :=
  match a with
  | [] => Raise ValueError_zero_size_reduction
  | p :: ps => Ok (foldl (vzip Qcmax) p ps)
  end.

(** [triangle.min(axis=0)] and [triangle.max(axis=0)]: three rows, never
    empty. *)
Definition triangle_min (t : Triangle) : Point :=
  foldl (vzip Qcmin) (ax0 t) [ax1 t; ax2 t].

Definition triangle_max (t : Triangle) : Point :=
  foldl (vzip Qcmax) (ax0 t) [ax1 t; ax2 t].

(** Lines 41 and 42: the box of the triangle in voxel coordinates. *)
Definition voxel_min_raw
    (min_coords : Point) (voxel_size : vec3 np_float) (triangle : Triangle)
  : vec3 Z :=
  let tri_min := triangle_min triangle in
  vmap astype_int
    (vmap ffloor
       (vzip fdiv (vmap Fin (vzip Qcminus tri_min min_coords)) voxel_size)).

Definition voxel_max_raw
    (min_coords : Point) (voxel_size : vec3 np_float) (triangle : Triangle)
  : vec3 Z :=
  let tri_max := triangle_max triangle in
  vmap astype_int
    (vmap fceil
       (vzip fdiv (vmap Fin (vzip Qcminus tri_max min_coords)) voxel_size)).

(** Lines 45 and 46: the clamp to the grid,
    [np.maximum(voxel_min, 0)] and [np.minimum(voxel_max, resolution - 1)]. *)
Definition voxel_min_of
    (min_coords : Point) (voxel_size : vec3 np_float) (triangle : Triangle)
  : vec3 Z :=
  vmap (fun v => Z.max v 0) (voxel_min_raw min_coords voxel_size triangle).

Definition voxel_max_of
    (resolution : Z) (min_coords : Point) (voxel_size : vec3 np_float)
    (triangle : Triangle)
  : vec3 Z :=
  vmap (fun v => Z.min v (resolution - 1))
       (voxel_max_raw min_coords voxel_size triangle).

(** Line 53: the centre of the voxel [(i, j, k)] in world coordinates. *)
Definition voxel_center_of
    (min_coords : Point) (voxel_size : vec3 np_float) (i j k : Z)
  : vec3 np_float :=
  vzip fadd
    (vzip fadd (vmap Fin min_coords)
               (vzip fmul (vmap of_int (V3 i j k)) voxel_size))
    (vmap (fun s => fdiv s (of_int 2)) voxel_size).

(** Lines 52-58: the body of the innermost loop. *)
Definition fill_voxel
    (min_coords : Point) (voxel_size : vec3 np_float) (triangle : Triangle)
    (i j k : Z) (voxel_grid : VoxelGrid)
  : result VoxelGrid :=
  let voxel_center := voxel_center_of min_coords voxel_size i j k in
  if point_near_triangle voxel_center triangle (fmax3 voxel_size)
  then grid_set voxel_grid i j k
  else Ok voxel_grid.

(** Lines 36-58: the body of the loop over the triangles. *)
Definition rasterize_triangle
    (resolution : Z) (min_coords : Point) (voxel_size : vec3 np_float)
    (voxel_grid : VoxelGrid) (triangle : Triangle)
  : result VoxelGrid :=
  let voxel_min := voxel_min_of min_coords voxel_size triangle in
  let voxel_max := voxel_max_of resolution min_coords voxel_size triangle in
  for_each (range_incl (ax0 voxel_min) (ax0 voxel_max)) (fun g i =>
    for_each (range_incl (ax1 voxel_min) (ax1 voxel_max)) (fun g j =>
      for_each (range_incl (ax2 voxel_min) (ax2 voxel_max)) (fun g k =>
        fill_voxel min_coords voxel_size triangle i j k g) g) g) voxel_grid.

(** The vertices of a mesh, as [stl_mesh.vectors.reshape(-1, 3)] lists
    them. *)
Definition all_points_of (vectors : Mesh) : list Point :=
  mjoin (vertices <$> vectors).

(** Lines 23-25: the bounding box of all the vertices. *)
Definition bounds_of (vectors : Mesh) : result (Point * Point) :=
  let all_points := all_points_of vectors in
  min_coords ← np_min_axis0 all_points;
  max_coords ← np_max_axis0 all_points;
  Ok (min_coords, max_coords).

(** Lines 28-29: the size of a voxel along each axis. *)
Definition voxel_size_of (bounds : Point * Point) (resolution : Z)
  : vec3 np_float :=
  let dims := vzip Qcminus (snd bounds) (fst bounds) in
  vmap (fun d => fdiv (Fin d) (of_int resolution)) dims.

(** The conversion, from the triangles [stl_mesh.vectors] that the STL loader
    has read from the file. *)
Definition stl_to_voxel (vectors : Mesh) (resolution : Z)
  : result (VoxelGrid * (Point * Point)) :=
  bounds ← bounds_of vectors;
  let min_coords := fst bounds in
  let voxel_size := voxel_size_of bounds resolution in
  voxel_grid ← np_zeros resolution;
  voxel_grid ←
    for_each vectors (rasterize_triangle resolution min_coords voxel_size)
             voxel_grid;
  Ok (voxel_grid, bounds).

(** ** Notions used by the statements *)

(** The three coordinate projections, indexed by the axis number. *)
Definition axis {A} (a : nat) (v : vec3 A) : A :=
  match a with O => ax0 v | S O => ax1 v | _ => ax2 v end.

(** [m] is the least (greatest) of the [a]-coordinates of the points. *)
Definition is_min_of (a : nat) (pts : list Point) (m : Qc) : Prop :=
  (∃ p, p ∈ pts ∧ axis a p = m) ∧ ∀ p, p ∈ pts → (m ≤ axis a p)%Qc.

Definition is_max_of (a : nat) (pts : list Point) (m : Qc) : Prop :=
  (∃ p, p ∈ pts ∧ axis a p = m) ∧ ∀ p, p ∈ pts → (axis a p ≤ m)%Qc.

(** The cell [c] lies in the inclusive index box from [lo] to [hi]. *)
Definition in_box (lo hi : vec3 Z) (c : Z * Z * Z) : Prop :=
  let '(i, j, k) := c in
  (ax0 lo ≤ i ≤ ax0 hi) ∧ (ax1 lo ≤ j ≤ ax1 hi) ∧ (ax2 lo ≤ k ≤ ax2 hi).

(** The occupancy test that the loop body applies to the cell [c]. *)
Definition occupied
    (min_coords : Point) (voxel_size : vec3 np_float) (triangle : Triangle)
    (c : Z * Z * Z) : bool :=
  let '(i, j, k) := c in
  point_near_triangle (voxel_center_of min_coords voxel_size i j k) triangle
                      (fmax3 voxel_size).

(** A triangle claims the cell [c]: [c] lies in the clamped index range of
    the triangle and the occupancy test holds at the centre of [c]. *)
Definition claims
    (resolution : Z) (min_coords : Point) (voxel_size : vec3 np_float)
    (triangle : Triangle) (c : Z * Z * Z) : Prop :=
  in_box (voxel_min_of min_coords voxel_size triangle)
         (voxel_max_of resolution min_coords voxel_size triangle) c
  ∧ occupied min_coords voxel_size triangle c = true.

(** Every cell that is true in [g] is true in [g']. *)
Definition grid_le (g g' : VoxelGrid) : Prop :=
  ∀ c, cell g c = true → cell g' c = true.

(** The cells that the three nested loops visit for a triangle, in the order
    of the visit. *)
Definition candidates
    (resolution : Z) (min_coords : Point) (voxel_size : vec3 np_float)
    (triangle : Triangle) : list (Z * Z * Z) :=
  let voxel_min := voxel_min_of min_coords voxel_size triangle in
  let voxel_max := voxel_max_of resolution min_coords voxel_size triangle in
  i ← range_incl (ax0 voxel_min) (ax0 voxel_max);
  j ← range_incl (ax1 voxel_min) (ax1 voxel_max);
  k ← range_incl (ax2 voxel_min) (ax2 voxel_max);
  [(i, j, k)].

(** The executions of the innermost loop body during a whole run, in order:
    which triangle is being drawn and which cell is being tested. *)
Definition schedule
    (resolution : Z) (min_coords : Point) (voxel_size : vec3 np_float)
    (vectors : Mesh) : list (Triangle * (Z * Z * Z)) :=
  t ← vectors;
  c ← candidates resolution min_coords voxel_size t;
  [(t, c)].

(** One execution of the innermost loop body. *)
Definition step
    (min_coords : Point) (voxel_size : vec3 np_float)
    (g : VoxelGrid) (tc : Triangle * (Z * Z * Z)) : result VoxelGrid :=
  let '(t, (i, j, k)) := tc in
  fill_voxel min_coords voxel_size t i j k g.

(** Both ends of the index range of a triangle lie in [0, resolution - 1],
    on every axis. *)
Definition both_clamped
    (resolution : Z) (min_coords : Point) (voxel_size : vec3 np_float)
    (triangle : Triangle) : Prop :=
  ∀ a,
    (0 ≤ axis a (voxel_min_of min_coords voxel_size triangle) ≤ resolution - 1)
    ∧ (0 ≤ axis a (voxel_max_of resolution min_coords voxel_size triangle)
       ≤ resolution - 1).

(** ** The distance test in words

    The coordinates as real numbers, the Euclidean distance between two
    points of space, and the least of the distances from a point to the
    three vertices of a triangle. *)







(** One entry of [distances]: the norm of the row [vertex - point]. *)
Definition distance_to (point : vec3 np_float) (vertex : Point) : np_root :=
  norm (vzip fsub (vmap Fin vertex) point).


(** ** [display_voxels]: the counts

    [display_voxels] draws the grid with matplotlib and prints three
    numbers.  The drawing, the fill percentage (a float64 quotient) and the
    formatting of the text are outside the model; [voxel_counts] computes the
    two integers of lines 93 and 94, [voxel_grid.size] and
    [voxel_grid.sum()]. *)

(** [voxel_grid.sum()]: the number of cells that are true. *)
Definition np_sum (g : VoxelGrid) : Z :=
  Z.of_nat (sum_list ((fun b : bool => if b then 1%nat else 0%nat)
                        <$> mjoin (mjoin g))).

Definition voxel_counts (voxel_grid : VoxelGrid) : Z * Z :=
  let total_voxels := Z.of_nat (size voxel_grid) in
  let filled_voxels := np_sum voxel_grid in
  (total_voxels, filled_voxels).

(** ** [point_near_triangle], bit for bit

    The predicate on IEEE-754 values, with the types NumPy gives to each
    value: the triangle is the float32 array of the mesh, the point is the
    float64 voxel centre, [triangle - point] and the norm are float64, the
    threshold [voxel_size.max()] is a float32 scalar and [threshold * 2]
    stays float32 (a Python [int] does not widen a NumPy scalar); the
    comparison widens it to float64.  The operations are the reference
    implementations of the Standard Library ([SpecFloat]), rounding to
    nearest even. *)

Module IEEE.
Import SpecFloat.

Definition add64 : spec_float → spec_float → spec_float := SFadd 53 1024.
Definition sub64 : spec_float → spec_float → spec_float := SFsub 53 1024.
Definition mul64 : spec_float → spec_float → spec_float := SFmul 53 1024.
Definition sqrt64 : spec_float → spec_float := SFsqrt 53 1024.
Definition mul32 : spec_float → spec_float → spec_float := SFmul 24 128.

Definition isnan (x : spec_float) : bool :=
  match x with S754_nan => true | _ => false end.

(** [a < b]: false as soon as one side is NaN. *)
Definition lt (a b : spec_float) : bool := SFltb a b.

(** The conversion of a float32 to float64, which is exact. *)
Definition f64_of_f32 (x : spec_float) : spec_float :=
  match x with
  | S754_finite s m e => binary_normalize 53 1024 (cond_Zopp s (Zpos m)) e s
  | _ => x
  end.

(** The float32 value 2. *)
Definition two32 : spec_float := S754_finite false 8388608 (-22).

(** [threshold * 2], as the comparison sees it. *)
Definition twice (threshold : spec_float) : spec_float :=
  f64_of_f32 (mul32 threshold two32).

(** [np.linalg.norm] of one row: [sqrt(add.reduce(x * x))]. *)
Definition norm (w : vec3 spec_float) : spec_float :=
  sqrt64 (add64 (add64 (mul64 (ax0 w) (ax0 w)) (mul64 (ax1 w) (ax1 w)))
                (mul64 (ax2 w) (ax2 w))).

(** One entry of [distances]: the norm of the row [vertex - point]. *)
Definition distance (point vertex : vec3 spec_float) : spec_float :=
  norm (vzip sub64 (vmap f64_of_f32 vertex) point).

(** One step of the reduction [.min()], which propagates NaN. *)
Definition np_minimum (a b : spec_float) : spec_float :=
  if lt a b || isnan a then a else b.

Definition point_near_triangle
    (point : vec3 spec_float) (triangle : vec3 (vec3 spec_float))
    (threshold : spec_float) : bool :=
  (* distances = np.linalg.norm(triangle - point, axis=1) *)
  let distances := vmap (distance point) triangle in
  (* return distances.min() < threshold * 2 *)
  lt (np_minimum (np_minimum (ax0 distances) (ax1 distances))
                 (ax2 distances))
     (twice threshold).

End IEEE.

(** ** Test meshes *)

Definition pt (x y z : Z) : Point := V3 (Qc_of_Z x) (Qc_of_Z y) (Qc_of_Z z).

(** The flat triangle (0,0,0), (1,0,0), (0,1,0). *)
Definition flat_triangle : Triangle := V3 (pt 0 0 0) (pt 1 0 0) (pt 0 1 0).

(** A tetrahedron with a vertex on each axis. *)
Definition tetrahedron : Mesh :=
  [ V3 (pt 0 0 0) (pt 1 0 0) (pt 0 1 0);
    V3 (pt 0 0 0) (pt 1 0 0) (pt 0 0 1);
    V3 (pt 0 0 0) (pt 0 1 0) (pt 0 0 1);
    V3 (pt 1 0 0) (pt 0 1 0) (pt 0 0 1) ].

(** The cube with corners at +1 and -1, two triangles per face. *)
Definition cube_mesh : Mesh :=
  [ V3 (pt (-1) (-1) (-1)) (pt (-1) 1 (-1)) (pt (-1) 1 1);
    V3 (pt (-1) (-1) (-1)) (pt (-1) 1 1) (pt (-1) (-1) 1);
    V3 (pt 1 (-1) (-1)) (pt 1 1 (-1)) (pt 1 1 1);
    V3 (pt 1 (-1) (-1)) (pt 1 1 1) (pt 1 (-1) 1);
    V3 (pt (-1) (-1) (-1)) (pt 1 (-1) (-1)) (pt 1 (-1) 1);
    V3 (pt (-1) (-1) (-1)) (pt 1 (-1) 1) (pt (-1) (-1) 1);
    V3 (pt (-1) 1 (-1)) (pt 1 1 (-1)) (pt 1 1 1);
    V3 (pt (-1) 1 (-1)) (pt 1 1 1) (pt (-1) 1 1);
    V3 (pt (-1) (-1) (-1)) (pt 1 (-1) (-1)) (pt 1 1 (-1));
    V3 (pt (-1) (-1) (-1)) (pt 1 1 (-1)) (pt (-1) 1 (-1));
    V3 (pt (-1) (-1) 1) (pt 1 (-1) 1) (pt 1 1 1);
    V3 (pt (-1) (-1) 1) (pt 1 1 1) (pt (-1) 1 1) ].

(** The first triangle of the face [x = 1] of the cube. *)
Definition cube_face_x1 : Triangle :=
  V3 (pt 1 (-1) (-1)) (pt 1 1 (-1)) (pt 1 1 1).




(** * Auxiliary lemmas *)

(** ** The conversion on the test meshes *)

Example cube_mesh_at_2 :
  stl_to_voxel cube_mesh 2
  = Ok ([[[true; true]; [true; true]]; [[true; true]; [true; false]]],
        (pt (-1) (-1) (-1), pt 1 1 1)).
Proof. vm_compute. reflexivity. Qed.

Example tetrahedron_at_3 :
  stl_to_voxel tetrahedron 3
  = Ok ([[[true; true; true]; [true; false; true]; [true; true; false]];
         [[true; false; true]; [false; false; false]; [true; false; false]];
         [[true; true; false]; [true; false; false]; [false; false; false]]],
        (pt 0 0 0, pt 1 1 1)).
Proof. vm_compute. reflexivity. Qed.

Example tetrahedron_at_minus_1 :
  stl_to_voxel tetrahedron (-1) = Raise ValueError_negative_dimensions.
Proof. vm_compute. reflexivity. Qed.

Example voxel_size_at_0 :
  voxel_size_of (pt 0 0 0, pt 1 1 0) 0 = V3 PInf PInf NaN.
Proof. vm_compute. reflexivity. Qed.


(** ** Order on the exact rationals *)

Lemma Qcltb_lt (x y : Qc) : Qcltb x y = true ↔ (x < y)%Qc.
Proof.
  unfold Qcltb. rewrite Qclt_alt.
  destruct (Qccompare x y); intuition congruence.
Qed.

Lemma Qcleb_le (x y : Qc) : Qcleb x y = true ↔ (x ≤ y)%Qc.
Proof.
  unfold Qcleb. rewrite Qcle_alt.
  destruct (Qccompare x y); intuition congruence.
Qed.

Lemma Qcleb_gt (x y : Qc) : Qcleb x y = false ↔ (y < x)%Qc.
Proof.
  rewrite Qclt_nge, <- Qcleb_le. destruct (Qcleb x y); intuition congruence.
Qed.

Lemma Qcmin_spec (x y : Qc) :
  (Qcmin x y ≤ x)%Qc ∧ (Qcmin x y ≤ y)%Qc ∧ (Qcmin x y = x ∨ Qcmin x y = y).
Proof.
  unfold Qcmin. destruct (Qcleb x y) eqn:E.
  - apply Qcleb_le in E. auto.
  - apply Qcleb_gt, Qclt_le_weak in E. auto.
Qed.

Lemma Qcmax_spec (x y : Qc) :
  (x ≤ Qcmax x y)%Qc ∧ (y ≤ Qcmax x y)%Qc ∧ (Qcmax x y = x ∨ Qcmax x y = y).
Proof.
  unfold Qcmax. destruct (Qcleb x y) eqn:E.
  - apply Qcleb_le in E. auto.
  - apply Qcleb_gt, Qclt_le_weak in E. auto.
Qed.

(** ** Reductions along axis 0 *)

Lemma vec3_eq {A} (u v : vec3 A) :
  (∀ a, (a < 3)%nat → axis a u = axis a v) → u = v.
Proof.
  intros H. destruct u as [u0 u1 u2], v as [v0 v1 v2].
  pose proof (H 0%nat). pose proof (H 1%nat). pose proof (H 2%nat).
  simpl in *. f_equal; auto with lia.
Qed.

Lemma axis_vzip {A B C} (f : A → B → C) a u v :
  axis a (vzip f u v) = f (axis a u) (axis a v).
Proof. by destruct a as [|[|?]]. Qed.

Lemma axis_vmap {A B} (f : A → B) a v : axis a (vmap f v) = f (axis a v).
Proof. by destruct a as [|[|?]]. Qed.

Lemma foldl_min_spec a (ps : list Point) (p : Point) :
  is_min_of a (p :: ps) (axis a (foldl (vzip Qcmin) p ps)).
Proof.
  revert p. induction ps as [|q ps IH] using rev_ind; intros p.
  - simpl. split; [exists p; split; [left|done]|].
    intros p' ->%list_elem_of_singleton. apply Qcle_refl.
  - rewrite foldl_app. simpl. rewrite axis_vzip.
    destruct (IH p) as [(w & Hw & Hwm) Hlb].
    destruct (Qcmin_spec (axis a (foldl (vzip Qcmin) p ps)) (axis a q))
      as (Hl & Hr & Hc).
    split.
    + destruct Hc as [-> | ->].
      * exists w. split; [|done].
        rewrite app_comm_cons. apply elem_of_app. by left.
      * exists q. split; [|done].
        rewrite app_comm_cons. apply elem_of_app. right. by left.
    + intros p'. rewrite app_comm_cons, elem_of_app, list_elem_of_singleton.
      intros [Hp | ->]; [|done].
      eapply Qcle_trans; [exact Hl|]. by apply Hlb.
Qed.

Lemma foldl_max_spec a (ps : list Point) (p : Point) :
  is_max_of a (p :: ps) (axis a (foldl (vzip Qcmax) p ps)).
Proof.
  revert p. induction ps as [|q ps IH] using rev_ind; intros p.
  - simpl. split; [exists p; split; [left|done]|].
    intros p' ->%list_elem_of_singleton. apply Qcle_refl.
  - rewrite foldl_app. simpl. rewrite axis_vzip.
    destruct (IH p) as [(w & Hw & Hwm) Hub].
    destruct (Qcmax_spec (axis a (foldl (vzip Qcmax) p ps)) (axis a q))
      as (Hl & Hr & Hc).
    split.
    + destruct Hc as [-> | ->].
      * exists w. split; [|done].
        rewrite app_comm_cons. apply elem_of_app. by left.
      * exists q. split; [|done].
        rewrite app_comm_cons. apply elem_of_app. right. by left.
    + intros p'. rewrite app_comm_cons, elem_of_app, list_elem_of_singleton.
      intros [Hp | ->]; [|done].
      eapply Qcle_trans; [|exact Hl]. by apply Hub.
Qed.

Lemma is_min_of_unique a pts pts' m m' :
  (∀ p, p ∈ pts ↔ p ∈ pts') →
  is_min_of a pts m → is_min_of a pts' m' → m = m'.
Proof.
  intros Heq [(p & Hp & <-) Hlb] [(p' & Hp' & <-) Hlb'].
  apply Qcle_antisym; [apply Hlb | apply Hlb']; by apply Heq.
Qed.

Lemma is_max_of_unique a pts pts' m m' :
  (∀ p, p ∈ pts ↔ p ∈ pts') →
  is_max_of a pts m → is_max_of a pts' m' → m = m'.
Proof.
  intros Heq [(p & Hp & <-) Hub] [(p' & Hp' & <-) Hub'].
  apply Qcle_antisym; [apply Hub' | apply Hub]; by apply Heq.
Qed.

Lemma np_min_axis0_spec (pts : list Point) :
  pts ≠ [] →
  ∃ m, np_min_axis0 pts = Ok m ∧ ∀ a, is_min_of a pts (axis a m).
Proof.
  destruct pts as [|p ps]; [done|]. intros _. eexists. split; [done|].
  intros a. apply foldl_min_spec.
Qed.

Lemma np_max_axis0_spec (pts : list Point) :
  pts ≠ [] →
  ∃ m, np_max_axis0 pts = Ok m ∧ ∀ a, is_max_of a pts (axis a m).
Proof.
  destruct pts as [|p ps]; [done|]. intros _. eexists. split; [done|].
  intros a. apply foldl_max_spec.
Qed.

Lemma elem_of_all_points (vectors : Mesh) (p : Point) :
  p ∈ all_points_of vectors ↔ ∃ t, t ∈ vectors ∧ p ∈ vertices t.
Proof.
  unfold all_points_of. rewrite list_elem_of_join. split.
  - intros (l & Hp & (t & -> & Ht)%list_elem_of_fmap). eauto.
  - intros (t & Ht & Hp). exists (vertices t). split; [done|].
    apply list_elem_of_fmap. eauto.
Qed.

Lemma all_points_nonempty (vectors : Mesh) :
  vectors ≠ [] → all_points_of vectors ≠ [].
Proof. by destruct vectors. Qed.

(** ** The error monad and the loops *)

Lemma for_each_app {A S} (l1 l2 : list A) (body : S → A → result S) (s : S) :
  for_each (l1 ++ l2) body s = s' ← for_each l1 body s; for_each l2 body s'.
Proof.
  revert s. induction l1 as [|a l1 IH]; intros s; simpl; [done|].
  destruct (body s a); simpl; [apply IH|done].
Qed.

(** A loop whose body keeps an invariant and relates the states by a
    preorder does so as a whole. *)
Lemma for_each_preserves {A S} (I : S → Prop) (R : S → S → Prop)
    `{!Reflexive R, !Transitive R}
    (l : list A) (body : S → A → result S) :
  (∀ s a s', a ∈ l → I s → body s a = Ok s' → I s' ∧ R s s') →
  ∀ s s', I s → for_each l body s = Ok s' → I s' ∧ R s s'.
Proof.
  induction l as [|a l IH]; intros Hbody s s' Hs; simpl.
  - intros [= <-]. done.
  - destruct (body s a) as [s1|e] eqn:E; simpl; [|done].
    intros Hrest. destruct (Hbody s a s1) as [H1 HR1]; [left|done|done|].
    destruct (IH (fun s a s' Ha => Hbody s a s' (list_elem_of_further _ _ _ Ha))
                 s1 s' H1 Hrest) as [H2 HR2].
    split; [done|]. by trans s1.
Qed.

(** ** Reading and writing the grid *)

Lemma np_index_in_range (n : nat) (i : Z) :
  0 ≤ i < Z.of_nat n → np_index n i = Ok (Z.to_nat i).
Proof.
  intros H. unfold np_index.
  destruct (Z.leb_spec 0 i), (Z.ltb_spec i (Z.of_nat n)); simpl; done || lia.
Qed.

Lemma get_set (g : VoxelGrid) (i j k i' j' k' : nat) :
  get (alter (alter (<[k := true]>) j) i g) i' j' k' =
  if decide (i = i' ∧ j = j' ∧ k = k')
  then (fun _ => true) <$> get g i j k
  else get g i' j' k'.
Proof.
  unfold get. rewrite list_lookup_alter.
  destruct (decide (i = i')) as [<-|Hi]; [|by rewrite decide_False by tauto].
  destruct (g !! i) as [plane|]; simpl; [|by case_decide].
  rewrite list_lookup_alter.
  destruct (decide (j = j')) as [<-|Hj]; [|by rewrite decide_False by tauto].
  destruct (plane !! j) as [row|]; simpl; [|by case_decide].
  rewrite list_lookup_insert.
  destruct (decide (k = k')) as [<-|Hk].
  - rewrite (decide_True (P := i = i ∧ j = j ∧ k = k)) by done.
    destruct (row !! k) eqn:E; simpl.
    + apply lookup_lt_Some in E. by rewrite decide_True.
    + apply lookup_ge_None in E. rewrite decide_False by lia. done.
  - rewrite decide_False by tauto. by rewrite decide_False by tauto.
Qed.

Lemma cube_get (n : nat) (g : VoxelGrid) (i j k : nat) :
  cube n g → (i < n)%nat → (j < n)%nat → (k < n)%nat →
  ∃ plane row b,
    g !! i = Some plane ∧ plane !! j = Some row ∧ row !! k = Some b ∧
    length plane = n ∧ length row = n.
Proof.
  intros [Hlen Hall] Hi Hj Hk.
  destruct (lookup_lt_is_Some_2 g i) as [plane Hp]; [lia|].
  destruct (Forall_lookup_1 _ _ _ _ Hall Hp) as [Hlp Hrows].
  destruct (lookup_lt_is_Some_2 plane j) as [row Hr]; [lia|].
  pose proof (Forall_lookup_1 _ _ _ _ Hrows Hr) as Hlr. simpl in Hlr.
  destruct (lookup_lt_is_Some_2 row k) as [b Hb]; [lia|].
  by exists plane, row, b.
Qed.

Lemma cube_get_is_Some (n : nat) (g : VoxelGrid) (i j k : nat) :
  cube n g → (i < n)%nat → (j < n)%nat → (k < n)%nat → is_Some (get g i j k).
Proof.
  intros Hc Hi Hj Hk.
  destruct (cube_get n g i j k) as (plane & row & b & Hp & Hr & Hb & _); try done.
  exists b. unfold get. rewrite Hp. simpl. rewrite Hr. simpl. done.
Qed.

Lemma cube_get_None (n : nat) (g : VoxelGrid) (i j k : nat) :
  cube n g → ¬ ((i < n)%nat ∧ (j < n)%nat ∧ (k < n)%nat) → get g i j k = None.
Proof.
  intros [Hlen Hall] Hout. unfold get.
  destruct (g !! i) as [plane|] eqn:Hp; simpl; [|done].
  destruct (Forall_lookup_1 _ _ _ _ Hall Hp) as [Hlp Hrows].
  apply lookup_lt_Some in Hp as Hi.
  destruct (plane !! j) as [row|] eqn:Hr; simpl; [|done].
  pose proof (Forall_lookup_1 _ _ _ _ Hrows Hr) as Hlr. simpl in Hlr.
  apply lookup_lt_Some in Hr as Hj.
  apply lookup_ge_None. lia.
Qed.

Lemma cube_set (n : nat) (g : VoxelGrid) (i j k : nat) :
  cube n g → cube n (alter (alter (<[k := true]>) j) i g).
Proof.
  intros [Hlen Hall]. split; [by rewrite length_alter|].
  apply Forall_alter; [done|]. intros plane Hp.
  destruct (Forall_lookup_1 _ _ _ _ Hall Hp) as [Hlp Hrows].
  split; [by rewrite length_alter|].
  apply Forall_alter; [done|]. intros row Hr.
  pose proof (Forall_lookup_1 _ _ _ _ Hrows Hr) as Hlr. simpl in Hlr.
  by rewrite length_insert.
Qed.

(** Two grids of the same shape with the same cells are the same grid. *)
Lemma cube_ext (n : nat) (g g' : VoxelGrid) :
  cube n g → cube n g' →
  (∀ i j k, get g i j k = get g' i j k) → g = g'.
Proof.
  intros Hc Hc' Hget. apply list_eq. intros i.
  destruct (decide (i < n)%nat) as [Hi|Hi].
  2:{ destruct Hc as [Hl _], Hc' as [Hl' _].
      rewrite !(lookup_ge_None_2 _ i) by lia. done. }
  destruct (lookup_lt_is_Some_2 g i) as [p Hp]; [destruct Hc; lia|].
  destruct (lookup_lt_is_Some_2 g' i) as [p' Hp']; [destruct Hc'; lia|].
  rewrite Hp, Hp'. f_equal.
  destruct (Forall_lookup_1 _ _ _ _ (proj2 Hc) Hp) as [Hlp Hrows].
  destruct (Forall_lookup_1 _ _ _ _ (proj2 Hc') Hp') as [Hlp' Hrows'].
  apply list_eq. intros j.
  destruct (decide (j < n)%nat) as [Hj|Hj].
  2:{ rewrite !(lookup_ge_None_2 _ j) by lia. done. }
  destruct (lookup_lt_is_Some_2 p j) as [r Hr]; [lia|].
  destruct (lookup_lt_is_Some_2 p' j) as [r' Hr']; [lia|].
  rewrite Hr, Hr'. f_equal.
  apply list_eq. intros k. specialize (Hget i j k). unfold get in Hget.
  rewrite Hp, Hp' in Hget. simpl in Hget. rewrite Hr, Hr' in Hget. done.
Qed.

Lemma grid_set_in_range (n : nat) (g : VoxelGrid) (i j k : Z) :
  cube n g →
  0 ≤ i < Z.of_nat n → 0 ≤ j < Z.of_nat n → 0 ≤ k < Z.of_nat n →
  grid_set g i j k =
  Ok (alter (alter (<[Z.to_nat k := true]>) (Z.to_nat j)) (Z.to_nat i) g).
Proof.
  intros Hc Hi Hj Hk. unfold grid_set.
  destruct (cube_get n g (Z.to_nat i) (Z.to_nat j) (Z.to_nat k))
    as (plane & row & b & Hp & Hr & Hb & Hlp & Hlr); [done|lia..|].
  rewrite (np_index_in_range (length g) i) by (destruct Hc; lia). simpl.
  rewrite (list_lookup_total_correct _ _ _ Hp).
  rewrite (np_index_in_range (length plane) j) by lia. simpl.
  rewrite (list_lookup_total_correct _ _ _ Hr).
  rewrite (np_index_in_range (length row) k) by lia. done.
Qed.

Lemma grid_set_inv (g g' : VoxelGrid) (i j k : Z) :
  grid_set g i j k = Ok g' →
  ∃ i' j' k' : nat, g' = alter (alter (<[k' := true]>) j') i' g.
Proof.
  unfold grid_set. intros H.
  destruct (np_index (length g) i) as [i'|]; simpl in H; [|done].
  destruct (np_index (length (g !!! i')) j) as [j'|]; simpl in H; [|done].
  destruct (np_index (length ((g !!! i') !!! j')) k) as [k'|];
    simpl in H; [|done].
  injection H as <-. by exists i', j', k'.
Qed.

Global Instance grid_le_refl : Reflexive grid_le.
Proof. by intros g c. Qed.

Global Instance grid_le_trans : Transitive grid_le.
Proof. intros g1 g2 g3 H12 H23 c Hc. by apply H23, H12. Qed.

Lemma cell_true (g : VoxelGrid) (i j k : Z) :
  cell g (i, j, k) = true ↔
  0 ≤ i ∧ 0 ≤ j ∧ 0 ≤ k ∧
  get g (Z.to_nat i) (Z.to_nat j) (Z.to_nat k) = Some true.
Proof.
  unfold cell.
  destruct (Z.leb_spec 0 i), (Z.leb_spec 0 j), (Z.leb_spec 0 k); simpl;
    try (split; [done|lia]).
  destruct (get g _ _ _) as [[]|]; simpl; split; try done;
    intuition congruence.
Qed.

(** The only write of the program never resets a cell. *)
Lemma grid_set_le (g g' : VoxelGrid) (i j k : Z) :
  grid_set g i j k = Ok g' → grid_le g g'.
Proof.
  intros (i' & j' & k' & ->)%grid_set_inv [[a b] c].
  rewrite !cell_true. intros (Ha & Hb & Hc & Hget).
  repeat split; try done. rewrite get_set. case_decide as Heq; [|done].
  destruct Heq as (-> & -> & ->). by rewrite Hget.
Qed.

Lemma cell_grid_set (n : nat) (g g' : VoxelGrid) (i j k : Z) :
  cube n g →
  0 ≤ i < Z.of_nat n → 0 ≤ j < Z.of_nat n → 0 ≤ k < Z.of_nat n →
  grid_set g i j k = Ok g' →
  cube n g' ∧ ∀ c, cell g' c = true ↔ cell g c = true ∨ c = (i, j, k).
Proof.
  intros Hc Hi Hj Hk. rewrite (grid_set_in_range n) by done.
  intros [= <-]. split; [by apply cube_set|].
  intros [[a b] c]. rewrite !cell_true, get_set.
  destruct (cube_get_is_Some n g (Z.to_nat i) (Z.to_nat j) (Z.to_nat k))
    as [v Hv]; [done|lia..|].
  case_decide as Heq.
  - rewrite Hv. simpl. split.
    + intros (Ha & Hb & Hc' & _). right.
      destruct Heq as (E1 & E2 & E3). f_equal; [f_equal|]; lia.
    + intros [(? & ? & ? & _) | [= -> -> ->]]; repeat split; done || lia.
  - split; [tauto|]. intros [H | [= -> -> ->]]; [done|]. tauto.
Qed.

(** ** The index range of a triangle *)

Lemma elem_of_range_incl (lo hi x : Z) : x ∈ range_incl lo hi ↔ lo ≤ x ≤ hi.
Proof. unfold range_incl. rewrite elem_of_seqZ. lia. Qed.

Lemma range_incl_empty (lo hi : Z) : hi < lo → range_incl lo hi = [].
Proof.
  intros H. unfold range_incl, seqZ.
  replace (Z.to_nat (hi + 1 - lo)) with 0%nat by lia. done.
Qed.

Lemma voxel_min_of_nonneg min_coords voxel_size triangle (a : nat) :
  0 ≤ axis a (voxel_min_of min_coords voxel_size triangle).
Proof. unfold voxel_min_of. rewrite axis_vmap. lia. Qed.

Lemma voxel_max_of_le resolution min_coords voxel_size triangle (a : nat) :
  axis a (voxel_max_of resolution min_coords voxel_size triangle)
  ≤ resolution - 1.
Proof. unfold voxel_max_of. rewrite axis_vmap. lia. Qed.

Lemma in_box_clamped resolution min_coords voxel_size triangle i j k :
  in_box (voxel_min_of min_coords voxel_size triangle)
         (voxel_max_of resolution min_coords voxel_size triangle) (i, j, k) →
  (0 ≤ i ≤ resolution - 1) ∧ (0 ≤ j ≤ resolution - 1)
  ∧ (0 ≤ k ≤ resolution - 1).
Proof.
  intros (Hi & Hj & Hk).
  pose proof (voxel_min_of_nonneg min_coords voxel_size triangle 0).
  pose proof (voxel_min_of_nonneg min_coords voxel_size triangle 1).
  pose proof (voxel_min_of_nonneg min_coords voxel_size triangle 2).
  pose proof (voxel_max_of_le resolution min_coords voxel_size triangle 0).
  pose proof (voxel_max_of_le resolution min_coords voxel_size triangle 1).
  pose proof (voxel_max_of_le resolution min_coords voxel_size triangle 2).
  simpl in *. lia.
Qed.

(** ** What the loops write *)

(** A loop over [l] whose body, at the element [a], marks exactly the cells
    described by [P a] marks exactly the cells described by some element
    of [l]. *)
Lemma for_each_marks {A} (n : nat) (l : list A)
    (body : VoxelGrid → A → result VoxelGrid) (P : A → Z * Z * Z → Prop) :
  (∀ g a, a ∈ l → cube n g →
     ∃ g', body g a = Ok g' ∧ cube n g' ∧
           ∀ c, cell g' c = true ↔ cell g c = true ∨ P a c) →
  ∀ g, cube n g →
     ∃ g', for_each l body g = Ok g' ∧ cube n g' ∧
           ∀ c, cell g' c = true ↔ cell g c = true ∨ ∃ a, a ∈ l ∧ P a c.
Proof.
  induction l as [|a l IH]; intros Hbody g Hg; simpl.
  - exists g. split; [done|split; [done|]]. intros c. split; [tauto|].
    intros [H|(a & Ha & _)]; [done|].
    by apply elem_of_nil in Ha.
  - destruct (Hbody g a) as (g1 & -> & Hg1 & Hcell1); [left|done|]. simpl.
    destruct (IH (fun g a Ha => Hbody g a (list_elem_of_further _ _ _ Ha))
                 g1 Hg1) as (g2 & -> & Hg2 & Hcell2).
    exists g2. split; [done|split; [done|]]. intros c. split.
    + intros [[H|H]%Hcell1|(b & Hb & HP)]%Hcell2; [by left|right..].
      * exists a. split; [left|done].
      * exists b. split; [by right|done].
    + intros H. apply Hcell2. rewrite Hcell1.
      destruct H as [H|(b & [->|Hb]%elem_of_cons & HP)]; eauto.
Qed.

Lemma fill_voxel_spec (n : nat) min_coords voxel_size triangle i j k g :
  cube n g →
  0 ≤ i < Z.of_nat n → 0 ≤ j < Z.of_nat n → 0 ≤ k < Z.of_nat n →
  ∃ g', fill_voxel min_coords voxel_size triangle i j k g = Ok g' ∧ cube n g'
        ∧ ∀ c, cell g' c = true ↔
               cell g c = true ∨
               (c = (i, j, k) ∧ occupied min_coords voxel_size triangle c = true).
Proof.
  intros Hg Hi Hj Hk. unfold fill_voxel.
  destruct (point_near_triangle _ _ _) eqn:Hocc.
  - rewrite (grid_set_in_range n) by done. eexists. split; [done|].
    destruct (cell_grid_set n g _ i j k Hg Hi Hj Hk
                (grid_set_in_range n g i j k Hg Hi Hj Hk)) as [Hc Hcell].
    split; [done|]. intros c. rewrite Hcell.
    split; (intros [H|H]; [by left|right]); [|tauto].
    subst c. done.
  - exists g. split; [done|split; [done|]]. intros c. split; [tauto|].
    intros [H|[-> H]]; [done|]. simpl in H. congruence.
Qed.

Lemma rasterize_triangle_spec resolution min_coords voxel_size triangle g :
  cube (Z.to_nat resolution) g →
  ∃ g', rasterize_triangle resolution min_coords voxel_size g triangle = Ok g'
        ∧ cube (Z.to_nat resolution) g'
        ∧ ∀ c, cell g' c = true ↔
               cell g c = true ∨
               claims resolution min_coords voxel_size triangle c.
Proof.
  intros Hg. unfold rasterize_triangle.
  set (lo := voxel_min_of min_coords voxel_size triangle).
  set (hi := voxel_max_of resolution min_coords voxel_size triangle).
  set (n := Z.to_nat resolution) in *.
  assert (Hin : ∀ i j k, in_box lo hi (i, j, k) →
            0 ≤ i < Z.of_nat n ∧ 0 ≤ j < Z.of_nat n ∧ 0 ≤ k < Z.of_nat n).
  { intros i j k H%in_box_clamped. lia. }
  destruct (for_each_marks n (range_incl (ax0 lo) (ax0 hi))
    (fun g i =>
       for_each (range_incl (ax1 lo) (ax1 hi)) (fun g j =>
         for_each (range_incl (ax2 lo) (ax2 hi)) (fun g k =>
           fill_voxel min_coords voxel_size triangle i j k g) g) g)
    (fun i c => ∃ j k, c = (i, j, k) ∧ in_box lo hi c
                       ∧ occupied min_coords voxel_size triangle c = true))
    with (g := g) as (g' & Hrun & Hg' & Hcell); [|done|].
  { intros g1 i Hi%elem_of_range_incl Hg1.
    destruct (for_each_marks n (range_incl (ax1 lo) (ax1 hi))
      (fun g j =>
         for_each (range_incl (ax2 lo) (ax2 hi)) (fun g k =>
           fill_voxel min_coords voxel_size triangle i j k g) g)
      (fun j c => ∃ k, c = (i, j, k) ∧ in_box lo hi c
                       ∧ occupied min_coords voxel_size triangle c = true))
      with (g := g1) as (g2 & Hrun2 & Hg2 & Hcell2); [|done|].
    { intros g3 j Hj%elem_of_range_incl Hg3.
      destruct (for_each_marks n (range_incl (ax2 lo) (ax2 hi))
        (fun g k => fill_voxel min_coords voxel_size triangle i j k g)
        (fun k c => c = (i, j, k) ∧ in_box lo hi c
                    ∧ occupied min_coords voxel_size triangle c = true))
        with (g := g3) as (g4 & Hrun4 & Hg4 & Hcell4); [|done|].
      { intros g5 k Hk%elem_of_range_incl Hg5.
        assert (Hbox : in_box lo hi (i, j, k)) by done.
        destruct (Hin i j k Hbox) as (Hi' & Hj' & Hk').
        destruct (fill_voxel_spec n min_coords voxel_size triangle i j k g5)
          as (g6 & Hrun6 & Hg6 & Hcell6); [done..|].
        exists g6. split; [done|split; [done|]]. intros c. split.
        - intros [H|[-> H]]%Hcell6; [by left|by right].
        - intros H. apply Hcell6. destruct H as [H|(-> & _ & H)]; auto. }
      exists g4. split; [done|split; [done|]]. intros c. split.
      - intros [H|(k & _ & H)]%Hcell4; [by left|right]. by exists k.
      - intros H. apply Hcell4. destruct H as [H|(k & -> & Hbox & H)]; [by left|].
        right. exists k. split; [|done].
        apply elem_of_range_incl. apply Hbox. }
    exists g2. split; [done|split; [done|]]. intros c. split.
    - intros [H|(j & _ & H)]%Hcell2; [by left|right]. by exists j.
    - intros H. apply Hcell2.
      destruct H as [H|(j & k & -> & Hbox & H)]; [by left|].
      right. exists j. split; [apply elem_of_range_incl; apply Hbox|].
      by exists k. }
  exists g'. split; [done|split; [done|]]. intros c. split.
  - intros [H|(i & _ & j & k & -> & Hbox & H)]%Hcell; [by left|by right].
  - intros H. apply Hcell. destruct H as [H|[Hbox H]]; [by left|].
    destruct c as [[i j] k]. right. exists i.
    split; [apply elem_of_range_incl; apply Hbox|]. by exists j, k.
Qed.

(** The loop over the triangles (lines 35-58). *)
Lemma rasterize_spec resolution min_coords voxel_size (vectors : Mesh) g :
  cube (Z.to_nat resolution) g →
  ∃ g', for_each vectors (rasterize_triangle resolution min_coords voxel_size) g
        = Ok g'
        ∧ cube (Z.to_nat resolution) g'
        ∧ ∀ c, cell g' c = true ↔
               cell g c = true ∨
               ∃ t, t ∈ vectors ∧ claims resolution min_coords voxel_size t c.
Proof.
  apply for_each_marks. intros g1 t _ Hg1. by apply rasterize_triangle_spec.
Qed.

Lemma fill_voxel_le min_coords voxel_size triangle i j k g g' :
  fill_voxel min_coords voxel_size triangle i j k g = Ok g' → grid_le g g'.
Proof.
  unfold fill_voxel. destruct (point_near_triangle _ _ _).
  - apply grid_set_le.
  - by intros [= <-].
Qed.

Lemma rasterize_triangle_le resolution min_coords voxel_size triangle g g' :
  rasterize_triangle resolution min_coords voxel_size g triangle = Ok g' →
  grid_le g g'.
Proof.
  unfold rasterize_triangle. intros H.
  eapply (for_each_preserves (fun _ => True) grid_le); [|done|exact H].
  intros g1 i g1' _ _ H1. cbv beta in H1. split; [done|].
  eapply (for_each_preserves (fun _ => True) grid_le); [|done|exact H1].
  intros g2 j g2' _ _ H2. cbv beta in H2. split; [done|].
  eapply (for_each_preserves (fun _ => True) grid_le); [|done|exact H2].
  intros g3 k g3' _ _ H3. cbv beta in H3. split; [done|].
  by eapply fill_voxel_le.
Qed.

Lemma rasterize_le resolution min_coords voxel_size (vectors : Mesh) g g' :
  for_each vectors (rasterize_triangle resolution min_coords voxel_size) g
  = Ok g' →
  grid_le g g'.
Proof.
  intros H.
  eapply (for_each_preserves (fun _ => True) grid_le); [|done|exact H].
  intros g1 t g1' _ _ H1. split; [done|]. by eapply rasterize_triangle_le.
Qed.

(** ** Allocation *)

Lemma length_mjoin_uniform {A} (n m : nat) (ls : list (list A)) :
  length ls = n → Forall (fun l => length l = m) ls →
  length (mjoin ls) = (n * m)%nat.
Proof.
  intros <- Hall. induction Hall as [|l ls Hl _ IH]; simpl; [done|].
  rewrite length_app, IH, Hl. done.
Qed.

Lemma cube_size (n : nat) (g : VoxelGrid) :
  cube n g → size g = (n * n * n)%nat.
Proof.
  intros [Hlen Hall]. unfold size.
  apply (length_mjoin_uniform (n * n) n).
  - apply length_mjoin_uniform; [done|].
    eapply List.Forall_impl; [|exact Hall]. by intros plane [? _].
  - apply Forall_join. eapply List.Forall_impl; [|exact Hall].
    by intros plane [_ ?].
Qed.

Lemma cube_zeros (n : nat) :
  cube n (replicate n (replicate n (replicate n false))).
Proof.
  split; [by rewrite length_replicate|].
  apply Forall_replicate. split; [by rewrite length_replicate|].
  apply Forall_replicate. by rewrite length_replicate.
Qed.

Lemma cell_zeros (n : nat) (c : Z * Z * Z) :
  cell (replicate n (replicate n (replicate n false))) c = false.
Proof.
  destruct c as [[i j] k]. apply not_true_is_false.
  rewrite cell_true. intros (_ & _ & _ & H). unfold get in H.
  destruct (replicate n _ !! Z.to_nat i) as [plane|] eqn:Hp; simpl in H; [|done].
  apply lookup_replicate in Hp as [-> _].
  destruct (replicate n _ !! Z.to_nat j) as [row|] eqn:Hr; simpl in H; [|done].
  apply lookup_replicate in Hr as [-> _].
  by apply lookup_replicate in H as [? _].
Qed.

Lemma np_zeros_spec (resolution : Z) :
  0 ≤ resolution →
  ∃ g0, np_zeros resolution = Ok g0 ∧ cube (Z.to_nat resolution) g0
        ∧ ∀ c, cell g0 c = false.
Proof.
  intros H. unfold np_zeros. destruct (Z.ltb_spec resolution 0); [lia|].
  eexists. split; [done|]. split; [apply cube_zeros|apply cell_zeros].
Qed.

(** ** The bounds *)

Lemma bounds_of_spec (vectors : Mesh) :
  vectors ≠ [] →
  ∃ min_coords max_coords,
    bounds_of vectors = Ok (min_coords, max_coords)
    ∧ ∀ a, is_min_of a (all_points_of vectors) (axis a min_coords)
           ∧ is_max_of a (all_points_of vectors) (axis a max_coords).
Proof.
  intros Hne%all_points_nonempty. unfold bounds_of.
  destruct (np_min_axis0_spec _ Hne) as (mn & -> & Hmn).
  destruct (np_max_axis0_spec _ Hne) as (mx & -> & Hmx).
  exists mn, mx. split; [done|]. by split.
Qed.

Lemma bounds_of_nil : bounds_of [] = Raise ValueError_zero_size_reduction.
Proof. done. Qed.

(** ** The conversion as a whole *)

(** With a mesh that has a triangle and a resolution that is not negative
    the conversion returns, and the cells it has set are the claimed ones. *)
Lemma stl_to_voxel_spec (vectors : Mesh) (resolution : Z) :
  vectors ≠ [] → 0 ≤ resolution →
  ∃ g bounds,
    bounds_of vectors = Ok bounds
    ∧ stl_to_voxel vectors resolution = Ok (g, bounds)
    ∧ cube (Z.to_nat resolution) g
    ∧ ∀ c, cell g c = true ↔
           ∃ t, t ∈ vectors
                ∧ claims resolution (fst bounds)
                         (voxel_size_of bounds resolution) t c.
Proof.
  intros Hne Hres.
  destruct (bounds_of_spec vectors Hne) as (mn & mx & Hb & _).
  destruct (np_zeros_spec resolution Hres) as (g0 & Hz & Hg0 & Hcell0).
  destruct (rasterize_spec resolution mn (voxel_size_of (mn, mx) resolution)
              vectors g0 Hg0) as (g & Hrun & Hg & Hcell).
  exists g, (mn, mx). split; [done|]. split.
  - unfold stl_to_voxel. rewrite Hb. simpl. rewrite Hz. simpl.
    rewrite Hrun. done.
  - split; [done|]. intros c. rewrite Hcell, Hcell0. simpl.
    split; [intros [?|?]; done|by right].
Qed.

(** The steps of a conversion that returns. *)
Lemma stl_to_voxel_inv (vectors : Mesh) (resolution : Z) g bounds :
  stl_to_voxel vectors resolution = Ok (g, bounds) →
  ∃ g0, bounds_of vectors = Ok bounds ∧ np_zeros resolution = Ok g0
        ∧ for_each vectors
            (rasterize_triangle resolution (fst bounds)
               (voxel_size_of bounds resolution)) g0 = Ok g.
Proof.
  unfold stl_to_voxel.
  destruct (bounds_of vectors) as [b|]; simpl; [|done].
  destruct (np_zeros resolution) as [g0|]; simpl; [|done].
  destruct (for_each vectors _ g0) as [g1|] eqn:E; simpl; [|done].
  intros [= <- <-]. by exists g0.
Qed.

(** ** The run as a sequence of loop-body executions *)

Lemma for_each_ext {A S} (l : list A) (body body' : S → A → result S) s :
  (∀ s a, a ∈ l → body s a = body' s a) →
  for_each l body s = for_each l body' s.
Proof.
  revert s. induction l as [|a l IH]; intros s H; simpl; [done|].
  rewrite H by left. destruct (body' s a); simpl; [|done].
  apply IH. intros s' b Hb. apply H. by right.
Qed.

Lemma for_each_bind {A B S} (l : list A) (f : A → list B)
    (body : S → B → result S) s :
  for_each (l ≫= f) body s = for_each l (fun s a => for_each (f a) body s) s.
Proof.
  revert s. induction l as [|a l IH]; intros s; [done|].
  rewrite bind_cons, for_each_app. simpl.
  destruct (for_each (f a) body s); simpl; [apply IH|done].
Qed.

Lemma for_each_singleton {A S} (a : A) (body : S → A → result S) s :
  for_each [a] body s = body s a.
Proof. simpl. by destruct (body s a). Qed.

Lemma rasterize_triangle_candidates resolution min_coords voxel_size g t :
  rasterize_triangle resolution min_coords voxel_size g t =
  for_each (candidates resolution min_coords voxel_size t)
           (fun g c => step min_coords voxel_size g (t, c)) g.
Proof.
  unfold rasterize_triangle, candidates. rewrite for_each_bind.
  apply for_each_ext. intros g1 i _. rewrite for_each_bind.
  apply for_each_ext. intros g2 j _. rewrite for_each_bind.
  apply for_each_ext. intros g3 k _. by rewrite for_each_singleton.
Qed.

Lemma rasterize_schedule resolution min_coords voxel_size (vectors : Mesh) g :
  for_each vectors (rasterize_triangle resolution min_coords voxel_size) g =
  for_each (schedule resolution min_coords voxel_size vectors)
           (step min_coords voxel_size) g.
Proof.
  unfold schedule. rewrite for_each_bind.
  apply for_each_ext. intros g1 t _.
  rewrite rasterize_triangle_candidates, for_each_bind.
  apply for_each_ext. intros g2 c _. by rewrite for_each_singleton.
Qed.

Lemma elem_of_candidates resolution min_coords voxel_size t c :
  c ∈ candidates resolution min_coords voxel_size t ↔
  in_box (voxel_min_of min_coords voxel_size t)
         (voxel_max_of resolution min_coords voxel_size t) c.
Proof.
  unfold candidates. destruct c as [[i j] k]. rewrite list_elem_of_bind.
  split.
  - intros (i' & (j' & (k' & Hc%list_elem_of_singleton & Hk%elem_of_range_incl)
                        %list_elem_of_bind & Hj%elem_of_range_incl)
                  %list_elem_of_bind & Hi%elem_of_range_incl).
    injection Hc as -> -> ->. done.
  - intros (Hi & Hj & Hk). exists i. rewrite elem_of_range_incl. split; [|done].
    apply list_elem_of_bind. exists j. rewrite elem_of_range_incl.
    split; [|done].
    apply list_elem_of_bind. exists k. rewrite elem_of_range_incl.
    split; [|done]. by apply list_elem_of_singleton.
Qed.

Lemma step_le min_coords voxel_size g tc g' :
  step min_coords voxel_size g tc = Ok g' → grid_le g g'.
Proof. destruct tc as [t [[i j] k]]. apply fill_voxel_le. Qed.

Lemma for_each_step_le min_coords voxel_size l g g' :
  for_each l (step min_coords voxel_size) g = Ok g' → grid_le g g'.
Proof.
  intros H.
  eapply (for_each_preserves (fun _ => True) grid_le); [|done|exact H].
  intros g1 tc g1' _ _ H1. split; [done|]. by eapply step_le.
Qed.

Lemma for_each_app_inv {A S} (l1 l2 : list A) (body : S → A → result S) s s' :
  for_each (l1 ++ l2) body s = Ok s' →
  ∃ s1, for_each l1 body s = Ok s1 ∧ for_each l2 body s1 = Ok s'.
Proof.
  rewrite for_each_app. destruct (for_each l1 body s) as [s1|]; simpl; [|done].
  intros H. by exists s1.
Qed.

Lemma cube_cell_ext (n : nat) (g g' : VoxelGrid) :
  cube n g → cube n g' →
  (∀ c, cell g c = true ↔ cell g' c = true) → g = g'.
Proof.
  intros Hg Hg' Hcell. apply (cube_ext n); [done..|]. intros i j k.
  destruct (decide ((i < n)%nat ∧ (j < n)%nat ∧ (k < n)%nat))
    as [(Hi & Hj & Hk)|Hout].
  2:{ by rewrite !(cube_get_None n). }
  destruct (cube_get_is_Some n g i j k) as [b Hb]; [done..|].
  destruct (cube_get_is_Some n g' i j k) as [b' Hb']; [done..|].
  specialize (Hcell (Z.of_nat i, Z.of_nat j, Z.of_nat k)).
  rewrite !cell_true, !Nat2Z.id, Hb, Hb' in Hcell.
  rewrite Hb, Hb'. f_equal.
  destruct b, b'; try done.
  - destruct Hcell as [Hc _].
    destruct Hc as (_ & _ & _ & [=]). repeat split; lia.
  - destruct Hcell as [_ Hc].
    destruct Hc as (_ & _ & _ & [=]). repeat split; lia.
Qed.

(** * The properties of the conversion *)

(** ** Empty mesh *)

(** C5: for a mesh with zero triangles the conversion fails instead of
    returning bounds or a grid: the reduction [all_points.min(axis=0)] over
    zero points raises NumPy's [ValueError], whatever the resolution, and it
    does so while the bounds are computed, before the grid is allocated. *)
Theorem empty_mesh_raises (resolution : Z) :
  bounds_of [] = Raise ValueError_zero_size_reduction
  ∧ stl_to_voxel [] resolution = Raise ValueError_zero_size_reduction.
Proof. split; reflexivity. Qed.

(** ** Bounds *)

(** C6: for every non-empty mesh the bounds are computed, [min_coords] is
    the component-wise minimum and [max_coords] the component-wise maximum
    over all the vertices of all the triangles; hence every vertex lies
    between them on every axis, and [min_coords <= max_coords] on every axis.
    These are the bounds that every conversion of the mesh returns. *)
Theorem bounds_are_min_and_max (vectors : Mesh) (Hne : vectors ≠ []) :
  ∃ min_coords max_coords,
    bounds_of vectors = Ok (min_coords, max_coords)
    ∧ (∀ a, is_min_of a (all_points_of vectors) (axis a min_coords)
            ∧ is_max_of a (all_points_of vectors) (axis a max_coords))
    ∧ (∀ t v a, t ∈ vectors → v ∈ vertices t →
         (axis a min_coords ≤ axis a v)%Qc ∧ (axis a v ≤ axis a max_coords)%Qc)
    ∧ (∀ a, (axis a min_coords ≤ axis a max_coords)%Qc)
    ∧ (∀ resolution g bounds,
         stl_to_voxel vectors resolution = Ok (g, bounds) →
         bounds = (min_coords, max_coords)).
Proof.
  destruct (bounds_of_spec vectors Hne) as (mn & mx & Hb & Hmm).
  exists mn, mx. split; [done|]. split; [done|].
  assert (Hin : ∀ t v a, t ∈ vectors → v ∈ vertices t →
            (axis a mn ≤ axis a v)%Qc ∧ (axis a v ≤ axis a mx)%Qc).
  { intros t v a Ht Hv. destruct (Hmm a) as [[_ Hlb] [_ Hub]].
    assert (v ∈ all_points_of vectors) by (apply elem_of_all_points; eauto).
    split; [by apply Hlb|by apply Hub]. }
  split; [done|]. split.
  - intros a. destruct vectors as [|t ?]; [done|].
    destruct (Hin t (ax0 t) a) as [H1 H2]; [left|left|].
    by eapply Qcle_trans.
  - intros resolution g bounds (g0 & Hb' & _)%stl_to_voxel_inv. congruence.
Qed.

Lemma bounds_are_min_and_max_witness :
  ∃ min_coords max_coords,
    bounds_of cube_mesh = Ok (min_coords, max_coords)
    ∧ (∀ a, is_min_of a (all_points_of cube_mesh) (axis a min_coords)
            ∧ is_max_of a (all_points_of cube_mesh) (axis a max_coords))
    ∧ (∀ t v a, t ∈ cube_mesh → v ∈ vertices t →
         (axis a min_coords ≤ axis a v)%Qc ∧ (axis a v ≤ axis a max_coords)%Qc)
    ∧ (∀ a, (axis a min_coords ≤ axis a max_coords)%Qc)
    ∧ (∀ resolution g bounds,
         stl_to_voxel cube_mesh resolution = Ok (g, bounds) →
         bounds = (min_coords, max_coords)).
Proof. apply (bounds_are_min_and_max cube_mesh). discriminate. Defined.

(** ** Allocation *)

(** C9: for a mesh with at least one triangle and a resolution of at least 1
    (in particular for every valid input) the grid that [np.zeros] allocates
    has shape resolution x resolution x resolution, that is resolution^3
    cells, every one of them false; the triangle loop starts from this grid,
    and the grid that the conversion returns has the same shape. *)
Theorem grid_allocated_all_false
    (vectors : Mesh) (resolution : Z)
    (Hne : vectors ≠ []) (Hres : 1 ≤ resolution) :
  ∃ g0 g bounds,
    np_zeros resolution = Ok g0
    ∧ cube (Z.to_nat resolution) g0
    ∧ Z.of_nat (size g0) = resolution ^ 3
    ∧ (∀ c, cell g0 c = false)
    ∧ bounds_of vectors = Ok bounds
    ∧ for_each vectors
        (rasterize_triangle resolution (fst bounds)
           (voxel_size_of bounds resolution)) g0 = Ok g
    ∧ stl_to_voxel vectors resolution = Ok (g, bounds)
    ∧ cube (Z.to_nat resolution) g
    ∧ Z.of_nat (size g) = resolution ^ 3.
Proof.
  destruct (stl_to_voxel_spec vectors resolution Hne) as
    (g & bounds & Hb & Hrun & Hg & _); [lia|].
  destruct (stl_to_voxel_inv _ _ _ _ Hrun) as (g0 & _ & Hz & Hloop).
  destruct (np_zeros_spec resolution) as (g0' & Hz' & Hg0 & Hcell0); [lia|].
  assert (g0' = g0) as -> by congruence.
  assert (Hsz : ∀ g', cube (Z.to_nat resolution) g' →
                      Z.of_nat (size g') = resolution ^ 3).
  { intros g' ->%cube_size. rewrite !Nat2Z.inj_mul, Z2Nat.id by lia. ring. }
  exists g0, g, bounds. repeat split; auto; apply Hg0 || apply Hg.
Qed.

Lemma grid_allocated_all_false_witness :
  ∃ g0 g bounds,
    np_zeros 2 = Ok g0
    ∧ cube (Z.to_nat 2) g0
    ∧ Z.of_nat (size g0) = 2 ^ 3
    ∧ (∀ c, cell g0 c = false)
    ∧ bounds_of cube_mesh = Ok bounds
    ∧ for_each cube_mesh
        (rasterize_triangle 2 (fst bounds) (voxel_size_of bounds 2)) g0 = Ok g
    ∧ stl_to_voxel cube_mesh 2 = Ok (g, bounds)
    ∧ cube (Z.to_nat 2) g
    ∧ Z.of_nat (size g) = 2 ^ 3.
Proof. apply (grid_allocated_all_false cube_mesh 2); [discriminate|lia]. Defined.

(** ** Monotonic writes *)

(** C8: in a conversion run the writes are monotonic and the final grid is
    the union of the claims.  For a mesh with at least one triangle and a
    resolution that is not negative the conversion returns a grid [g], and:
    - the run is the sequence [schedule] of executions of the innermost loop
      body, started from the grid [g0] of [np.zeros]; a cell that is true
      after any prefix [s1] of the run is still true after any longer prefix
      [s1 ++ s2], so no cell is ever reset;
    - the only write of the program, [grid_set], never resets a cell;
    - a cell of [g] is true iff some triangle claims it: the cell lies in the
      clamped index range of that triangle and the occupancy predicate holds
      at the centre of the cell. *)
Theorem writes_monotonic_final_grid_is_union
    (vectors : Mesh) (resolution : Z)
    (Hne : vectors ≠ []) (Hres : 0 ≤ resolution) :
  ∃ g0 g bounds,
    np_zeros resolution = Ok g0
    ∧ stl_to_voxel vectors resolution = Ok (g, bounds)
    ∧ (∀ s1 s2 s3,
         schedule resolution (fst bounds) (voxel_size_of bounds resolution)
                  vectors = s1 ++ s2 ++ s3 →
         ∃ g1 g2,
           for_each s1 (step (fst bounds) (voxel_size_of bounds resolution)) g0
           = Ok g1
           ∧ for_each s2 (step (fst bounds) (voxel_size_of bounds resolution)) g1
             = Ok g2
           ∧ for_each s3 (step (fst bounds) (voxel_size_of bounds resolution)) g2
             = Ok g
           ∧ grid_le g1 g2)
    ∧ (∀ g1 g2 i j k, grid_set g1 i j k = Ok g2 → grid_le g1 g2)
    ∧ (∀ c, cell g c = true ↔
            ∃ t, t ∈ vectors
                 ∧ claims resolution (fst bounds)
                          (voxel_size_of bounds resolution) t c).
Proof.
  destruct (stl_to_voxel_spec vectors resolution Hne Hres) as
    (g & bounds & Hb & Hrun & Hg & Hcell).
  destruct (stl_to_voxel_inv _ _ _ _ Hrun) as (g0 & _ & Hz & Hloop).
  exists g0, g, bounds. split; [done|]. split; [done|]. split; [|split].
  - intros s1 s2 s3 Hs. rewrite rasterize_schedule, Hs in Hloop.
    apply for_each_app_inv in Hloop as (g1 & H1 & Hloop).
    apply for_each_app_inv in Hloop as (g2 & H2 & H3).
    exists g1, g2. repeat split; try done. by eapply for_each_step_le.
  - intros g1 g2 i j k. apply grid_set_le.
  - done.
Qed.

Lemma writes_monotonic_final_grid_is_union_witness :
  ∃ g0 g bounds,
    np_zeros 2 = Ok g0
    ∧ stl_to_voxel cube_mesh 2 = Ok (g, bounds)
    ∧ (∀ s1 s2 s3,
         schedule 2 (fst bounds) (voxel_size_of bounds 2) cube_mesh
         = s1 ++ s2 ++ s3 →
         ∃ g1 g2,
           for_each s1 (step (fst bounds) (voxel_size_of bounds 2)) g0 = Ok g1
           ∧ for_each s2 (step (fst bounds) (voxel_size_of bounds 2)) g1 = Ok g2
           ∧ for_each s3 (step (fst bounds) (voxel_size_of bounds 2)) g2 = Ok g
           ∧ grid_le g1 g2)
    ∧ (∀ g1 g2 i j k, grid_set g1 i j k = Ok g2 → grid_le g1 g2)
    ∧ (∀ c, cell g c = true ↔
            ∃ t, t ∈ cube_mesh
                 ∧ claims 2 (fst bounds) (voxel_size_of bounds 2) t c).
Proof.
  apply (writes_monotonic_final_grid_is_union cube_mesh 2); [discriminate|lia].
Defined.

(** ** Order of the triangles *)

Lemma all_points_perm (vectors vectors' : Mesh) :
  vectors ≡ₚ vectors' →
  ∀ p, p ∈ all_points_of vectors ↔ p ∈ all_points_of vectors'.
Proof.
  intros Hp p. rewrite !elem_of_all_points.
  split; intros (t & Ht & Hv); exists t; split; try done.
  - by rewrite <- Hp.
  - by rewrite Hp.
Qed.

Lemma bounds_of_perm (vectors vectors' : Mesh) :
  vectors ≡ₚ vectors' → bounds_of vectors = bounds_of vectors'.
Proof.
  intros Hp. destruct vectors as [|t ts].
  { by apply Permutation_nil_l in Hp as ->. }
  assert (vectors' ≠ []) as Hne'.
  { intros ->. by apply Permutation_nil_r in Hp. }
  destruct (bounds_of_spec (t :: ts)) as (mn & mx & -> & Hmm); [done|].
  destruct (bounds_of_spec vectors' Hne') as (mn' & mx' & -> & Hmm').
  pose proof (all_points_perm _ _ Hp) as Hpts.
  do 2 f_equal; apply vec3_eq; intros a _.
  - eapply is_min_of_unique; [exact Hpts|apply Hmm|apply Hmm'].
  - eapply is_max_of_unique; [exact Hpts|apply Hmm|apply Hmm'].
Qed.

(** C7: permuting the triangles of the mesh does not change the outcome of
    the conversion: for every resolution the conversion of a permutation of
    the triangle sequence returns the same grid (and the same bounds) as the
    conversion of the original sequence, and it fails the same way when the
    conversion fails. *)
Theorem triangle_order_immaterial
    (vectors vectors' : Mesh) (resolution : Z)
    (Hperm : vectors ≡ₚ vectors') :
  stl_to_voxel vectors resolution = stl_to_voxel vectors' resolution.
Proof.
  pose proof (bounds_of_perm _ _ Hperm) as Hb.
  destruct vectors as [|t ts].
  { by apply Permutation_nil_l in Hperm as ->. }
  assert (vectors' ≠ []) as Hne'.
  { intros ->. by apply Permutation_nil_r in Hperm. }
  destruct (Z.lt_ge_cases resolution 0) as [Hneg|Hres].
  - unfold stl_to_voxel. rewrite <- Hb.
    destruct (bounds_of (t :: ts)); simpl; [|done].
    unfold np_zeros. destruct (Z.ltb_spec resolution 0); [done|lia].
  - destruct (stl_to_voxel_spec (t :: ts) resolution) as
      (g & bounds & Hb1 & -> & Hg & Hcell); [done..|].
    destruct (stl_to_voxel_spec vectors' resolution) as
      (g' & bounds' & Hb2 & -> & Hg' & Hcell'); [done..|].
    assert (bounds' = bounds) as -> by congruence.
    f_equal. f_equal. apply (cube_cell_ext (Z.to_nat resolution)); [done..|].
    intros c. rewrite Hcell, Hcell'.
    split; intros (t' & Ht' & Hc); exists t'; split; try done.
    + by rewrite <- Hperm.
    + by rewrite Hperm.
Qed.

Lemma triangle_order_immaterial_witness :
  stl_to_voxel tetrahedron 3 = stl_to_voxel (reverse tetrahedron) 3.
Proof.
  apply (triangle_order_immaterial tetrahedron (reverse tetrahedron) 3).
  symmetry. apply reverse_Permutation.
Defined.

(** ** The index range and the writes *)

Lemma candidates_empty resolution min_coords voxel_size triangle (a : nat) :
  axis a (voxel_max_of resolution min_coords voxel_size triangle)
  < axis a (voxel_min_of min_coords voxel_size triangle) →
  candidates resolution min_coords voxel_size triangle = [].
Proof.
  intros Hlt. apply elem_of_nil_inv. intros [[i j] k].
  rewrite elem_of_candidates. intros (Hi & Hj & Hk).
  destruct a as [|[|?]]; unfold axis in Hlt; lia.
Qed.

Lemma candidates_in_grid resolution min_coords voxel_size triangle i j k :
  (i, j, k) ∈ candidates resolution min_coords voxel_size triangle →
  (0 ≤ i ≤ resolution - 1) ∧ (0 ≤ j ≤ resolution - 1)
  ∧ (0 ≤ k ≤ resolution - 1).
Proof. rewrite elem_of_candidates. apply in_box_clamped. Qed.

(** C2 (as the code has it): the clamp is one-sided.  For every triangle the
    lower index is [max(index_min, 0)] and the upper index is
    [min(index_max, resolution - 1)]: the lower index is at least 0 and the
    upper index at most [resolution - 1] on every axis, before any cell is
    enumerated, so every voxel index that the loops enumerate lies in
    [0, resolution - 1] on every axis. *)
Theorem index_range_clamped_one_sided
    (resolution : Z) (min_coords : Point) (voxel_size : vec3 np_float)
    (triangle : Triangle) :
  (∀ a, axis a (voxel_min_of min_coords voxel_size triangle)
        = Z.max (axis a (voxel_min_raw min_coords voxel_size triangle)) 0
        ∧ axis a (voxel_max_of resolution min_coords voxel_size triangle)
          = Z.min (axis a (voxel_max_raw min_coords voxel_size triangle))
                  (resolution - 1))
  ∧ (∀ a, 0 ≤ axis a (voxel_min_of min_coords voxel_size triangle)
          ∧ axis a (voxel_max_of resolution min_coords voxel_size triangle)
            ≤ resolution - 1)
  ∧ (∀ i j k,
       (i, j, k) ∈ candidates resolution min_coords voxel_size triangle →
       (0 ≤ i ≤ resolution - 1) ∧ (0 ≤ j ≤ resolution - 1)
       ∧ (0 ≤ k ≤ resolution - 1)).
Proof.
  split; [|split].
  - intros a. unfold voxel_min_of, voxel_max_of. by rewrite !axis_vmap.
  - intros a. split; [apply voxel_min_of_nonneg|apply voxel_max_of_le].
  - apply candidates_in_grid.
Qed.

(** C2 as stated fails: for the triangle of the cube mesh that lies in the
    face [x = 1], at resolution 2, the lower index on axis 0 is 2, which is
    not in [0, resolution - 1] = [0, 1].  The range of that triangle is
    empty: the cell (1, 1, 1), which passes the occupancy test against it
    and which a lower index clamped to 1 would reach, stays false in the grid
    that the conversion returns. *)
Lemma index_min_above_grid :
  bounds_of cube_mesh = Ok (pt (-1) (-1) (-1), pt 1 1 1)
  ∧ cube_face_x1 ∈ cube_mesh
  ∧ ax0 (voxel_min_of (pt (-1) (-1) (-1))
           (voxel_size_of (pt (-1) (-1) (-1), pt 1 1 1) 2) cube_face_x1) = 2
  ∧ ¬ both_clamped 2 (pt (-1) (-1) (-1))
        (voxel_size_of (pt (-1) (-1) (-1), pt 1 1 1) 2) cube_face_x1
  ∧ occupied (pt (-1) (-1) (-1))
      (voxel_size_of (pt (-1) (-1) (-1), pt 1 1 1) 2) cube_face_x1 (1, 1, 1)
    = true
  ∧ ∃ g, stl_to_voxel cube_mesh 2 = Ok (g, (pt (-1) (-1) (-1), pt 1 1 1))
         ∧ cell g (1, 1, 1) = false.
Proof.
  split; [reflexivity|]. split; [do 2 right; left|].
  split; [by vm_compute|]. split.
  { intros H. destruct (H 0%nat) as [[_ H1] _].
    vm_compute in H1. by apply H1. }
  split; [by vm_compute|].
  exists [[[true; true]; [true; true]]; [[true; true]; [true; false]]].
  split; vm_compute; reflexivity.
Qed.

(** C10: with a resolution of at least 1 and a voxel size that is strictly
    positive on every axis, the writes of the rasterizer are in bounds.  For
    every triangle and every grid of the shape of the run: the lower index is
    at least 0 and the upper index at most [resolution - 1]; every cell
    [(i, j, k)] that the loops enumerate has its three indices in
    [0, resolution - 1], and the write [voxel_grid[i, j, k] = True] at such a
    cell succeeds on every grid of that shape; the pass over the triangle
    raises no error; and when the lower index exceeds the upper index on
    some axis, no cell is enumerated and the grid is left as it was. *)
Theorem rasterizer_writes_in_bounds
    (resolution : Z) (min_coords : Point) (size3 : vec3 Qc)
    (triangle : Triangle) (g : VoxelGrid)
    (Hres : 1 ≤ resolution)
    (Hpos : ∀ a, (0 < axis a size3)%Qc)
    (Hg : cube (Z.to_nat resolution) g) :
  let voxel_size := vmap Fin size3 in
  let lo := voxel_min_of min_coords voxel_size triangle in
  let hi := voxel_max_of resolution min_coords voxel_size triangle in
  (∀ a, 0 ≤ axis a lo ∧ axis a hi ≤ resolution - 1)
  ∧ (∀ i j k,
       (i, j, k) ∈ candidates resolution min_coords voxel_size triangle →
       ((0 ≤ i ≤ resolution - 1) ∧ (0 ≤ j ≤ resolution - 1)
        ∧ (0 ≤ k ≤ resolution - 1))
       ∧ ∀ g1, cube (Z.to_nat resolution) g1 →
               ∃ g2, grid_set g1 i j k = Ok g2
                     ∧ cube (Z.to_nat resolution) g2)
  ∧ (∃ g', rasterize_triangle resolution min_coords voxel_size g triangle
           = Ok g'
           ∧ cube (Z.to_nat resolution) g')
  ∧ ((∃ a, axis a hi < axis a lo) →
     candidates resolution min_coords voxel_size triangle = []
     ∧ rasterize_triangle resolution min_coords voxel_size g triangle = Ok g).
Proof.
  intros voxel_size lo hi. split; [|split; [|split]].
  - intros a. split; [apply voxel_min_of_nonneg|apply voxel_max_of_le].
  - intros i j k Hc%candidates_in_grid. split; [done|]. intros g1 Hg1.
    eexists. split.
    + apply (grid_set_in_range (Z.to_nat resolution)); [done|lia..].
    + by apply cube_set.
  - destruct (rasterize_triangle_spec resolution min_coords voxel_size
                triangle g Hg) as (g' & Hrun & Hg' & _).
    by exists g'.
  - intros [a Ha]. pose proof (candidates_empty _ _ _ _ a Ha) as Hnil.
    split; [done|]. by rewrite rasterize_triangle_candidates, Hnil.
Qed.

Lemma rasterizer_writes_in_bounds_witness :
  candidates 2 (pt (-1) (-1) (-1)) (vmap Fin (pt 1 1 1)) cube_face_x1 = []
  ∧ rasterize_triangle 2 (pt (-1) (-1) (-1)) (vmap Fin (pt 1 1 1))
      (replicate 2 (replicate 2 (replicate 2 false))) cube_face_x1
    = Ok (replicate 2 (replicate 2 (replicate 2 false))).
Proof.
  apply (rasterizer_writes_in_bounds 2 (pt (-1) (-1) (-1)) (pt 1 1 1)
           cube_face_x1 (replicate 2 (replicate 2 (replicate 2 false)))).
  - lia.
  - intros [|[|?]]; reflexivity.
  - apply (cube_zeros 2).
  - exists 0%nat. vm_compute. reflexivity.
Defined.

(** ** Inputs that the conversion does not reject *)

(** A pass in which every triangle has an empty index range leaves the grid
    as it is. *)
Lemma rasterize_nothing resolution min_coords voxel_size (vectors : Mesh) g :
  (∀ t, t ∈ vectors →
     ∃ a : nat,
       axis a (voxel_max_of resolution min_coords voxel_size t)
       < axis a (voxel_min_of min_coords voxel_size t)) →
  for_each vectors (rasterize_triangle resolution min_coords voxel_size) g
  = Ok g.
Proof.
  induction vectors as [|t ts IH]; intros Hempty; simpl; [done|].
  destruct (Hempty t) as [a Ha]; [left|].
  rewrite rasterize_triangle_candidates, (candidates_empty _ _ _ _ a Ha).
  simpl. apply IH. intros t' Ht'. apply Hempty. by right.
Qed.

Lemma bounds_of_is_Ok (vectors : Mesh) bounds :
  bounds_of vectors = Ok bounds → vectors ≠ [].
Proof. by intros H ->. Qed.

(** C3 (as the code has it): the resolution is not validated.  For a mesh
    with at least one triangle and a resolution below 1: the bounds are
    computed first; a negative resolution makes the grid allocation itself
    fail, [np.zeros] raising [ValueError], and no grid is returned; the
    resolution 0 raises no error: the conversion returns the empty grid
    of shape (0, 0, 0) with the bounds. *)
Theorem resolution_below_one
    (vectors : Mesh) (resolution : Z)
    (Hne : vectors ≠ []) (Hres : resolution < 1) :
  ∃ bounds,
    bounds_of vectors = Ok bounds
    ∧ (resolution < 0 →
       np_zeros resolution = Raise ValueError_negative_dimensions
       ∧ stl_to_voxel vectors resolution
         = Raise ValueError_negative_dimensions)
    ∧ (resolution = 0 →
       np_zeros resolution = Ok []
       ∧ stl_to_voxel vectors resolution = Ok ([], bounds)).
Proof.
  destruct (bounds_of_spec vectors Hne) as (mn & mx & Hb & _).
  exists (mn, mx). split; [done|]. split.
  - intros Hneg.
    assert (np_zeros resolution = Raise ValueError_negative_dimensions) as Hz.
    { unfold np_zeros. by destruct (Z.ltb_spec resolution 0); [|lia]. }
    split; [done|]. unfold stl_to_voxel. rewrite Hb. simpl. by rewrite Hz.
  - intros ->. split; [done|]. unfold stl_to_voxel. rewrite Hb. simpl.
    rewrite rasterize_nothing; [done|].
    intros t _. exists 0%nat.
    pose proof (voxel_max_of_le 0 mn (voxel_size_of (mn, mx) 0) t 0).
    pose proof (voxel_min_of_nonneg mn (voxel_size_of (mn, mx) 0) t 0).
    lia.
Qed.

Lemma resolution_below_one_witness :
  ∃ bounds,
    bounds_of tetrahedron = Ok bounds
    ∧ (-1 < 0 →
       np_zeros (-1) = Raise ValueError_negative_dimensions
       ∧ stl_to_voxel tetrahedron (-1) = Raise ValueError_negative_dimensions)
    ∧ (-1 = 0 →
       np_zeros (-1) = Ok []
       ∧ stl_to_voxel tetrahedron (-1) = Ok ([], bounds)).
Proof. apply (resolution_below_one tetrahedron (-1)); [discriminate|lia]. Defined.

(** C3 as stated fails: at resolution 0 the conversion of the tetrahedron
    raises no error; it returns an empty grid and the bounds. *)
Lemma resolution_zero_returns :
  stl_to_voxel tetrahedron 0 = Ok ([], (pt 0 0 0, pt 1 1 1)).
Proof. reflexivity. Qed.

Lemma Qc_of_Z_pos (n : Z) : 1 ≤ n → Qccompare (Qc_of_Z n) 0%Qc = Gt.
Proof.
  intros H. apply Qcgt_alt. rewrite <- Z2Qc_inj_0.
  apply (proj1 (Z2Qc_inj_lt 0 n)). lia.
Qed.

Lemma Qcminus_diag (x : Qc) : (x - x)%Qc = 0%Qc.
Proof. unfold Qcminus. apply Qcplus_opp_r. Qed.

Lemma triangle_max_is_max (t : Triangle) (a : nat) :
  is_max_of a (vertices t) (axis a (triangle_max t)).
Proof. apply foldl_max_spec. Qed.

(** On an axis where the mesh has no extent the voxel size is 0, the index
    of every triangle is [0 / 0], a NaN, and its conversion to an integer
    is [INT64_MIN]. *)
Lemma flat_axis_index (vectors : Mesh) (resolution : Z) mn mx t (a : nat) :
  bounds_of vectors = Ok (mn, mx) → 1 ≤ resolution →
  axis a mn = axis a mx → t ∈ vectors →
  axis a (voxel_max_raw mn (voxel_size_of (mn, mx) resolution) t) = INT64_MIN.
Proof.
  intros Hb Hres Hflat Ht.
  destruct (bounds_of_spec vectors (bounds_of_is_Ok _ _ Hb))
    as (mn' & mx' & Hb' & Hmm).
  assert (mn' = mn ∧ mx' = mx) as [-> ->] by (split; congruence).
  destruct (triangle_max_is_max t a) as [(p & Hp & Hpa) _].
  assert (p ∈ all_points_of vectors) as Hpin
    by (apply elem_of_all_points; eauto).
  destruct (Hmm a) as [[_ Hlb] [_ Hub]].
  pose proof (Hlb p Hpin) as Hlo. pose proof (Hub p Hpin) as Hhi.
  assert (axis a (triangle_max t) = axis a mn) as Hmax.
  { rewrite <- Hpa. apply Qcle_antisym; [by rewrite Hflat|done]. }
  unfold voxel_max_raw, voxel_size_of.
  rewrite !axis_vmap, axis_vzip, !axis_vmap, !axis_vzip. simpl.
  rewrite Hmax, <- Hflat, !Qcminus_diag.
  rewrite (Qc_of_Z_pos resolution Hres).
  replace (0 / Qc_of_Z resolution)%Qc with 0%Qc.
  2:{ unfold Qcdiv. by rewrite Qcmult_0_l. }
  reflexivity.
Qed.

(** C4 (as the code has it): a flat mesh is not rejected.  For a mesh with
    at least one triangle whose bounding box has zero extent on some axis and
    a resolution of at least 1 the conversion raises no error: the grid of
    resolution^3 cells is allocated and returned with the bounds.  No cell of
    it is set, because the index range of every triangle is empty on the flat
    axis. *)
Theorem flat_mesh_not_rejected
    (vectors : Mesh) (resolution : Z) (min_coords max_coords : Point)
    (a : nat)
    (Hb : bounds_of vectors = Ok (min_coords, max_coords))
    (Hres : 1 ≤ resolution)
    (Hflat : axis a min_coords = axis a max_coords) :
  ∃ g0,
    np_zeros resolution = Ok g0
    ∧ stl_to_voxel vectors resolution = Ok (g0, (min_coords, max_coords))
    ∧ cube (Z.to_nat resolution) g0
    ∧ Z.of_nat (size g0) = resolution ^ 3
    ∧ ∀ c, cell g0 c = false.
Proof.
  destruct (np_zeros_spec resolution) as (g0 & Hz & Hg0 & Hcell0); [lia|].
  exists g0. split; [done|]. split; [|split; [done|split; [|done]]].
  - unfold stl_to_voxel. rewrite Hb. simpl. rewrite Hz. simpl.
    rewrite rasterize_nothing; [done|].
    intros t Ht. exists a.
    pose proof (voxel_min_of_nonneg min_coords
                  (voxel_size_of (min_coords, max_coords) resolution) t a).
    unfold voxel_max_of. rewrite axis_vmap.
    rewrite (flat_axis_index vectors resolution _ _ t a Hb Hres Hflat Ht).
    unfold INT64_MIN. lia.
  - rewrite (cube_size _ _ Hg0), !Nat2Z.inj_mul, Z2Nat.id by lia. ring.
Qed.

Lemma flat_mesh_not_rejected_witness :
  ∃ g0,
    np_zeros 3 = Ok g0
    ∧ stl_to_voxel [flat_triangle] 3 = Ok (g0, (pt 0 0 0, pt 1 1 0))
    ∧ cube (Z.to_nat 3) g0
    ∧ Z.of_nat (size g0) = 3 ^ 3
    ∧ ∀ c, cell g0 c = false.
Proof.
  apply (flat_mesh_not_rejected [flat_triangle] 3 (pt 0 0 0) (pt 1 1 0) 2);
    [reflexivity|lia|reflexivity].
Defined.

(** C4 as stated fails: the conversion of the single flat triangle
    (0,0,0), (1,0,0), (0,1,0) at resolution 1 raises no error; it returns a
    grid of one cell and the bounds. *)
Lemma flat_triangle_returns :
  stl_to_voxel [flat_triangle] 1 = Ok ([[[false]]], (pt 0 0 0, pt 1 1 0)).
Proof. reflexivity. Qed.

(** ** The occupancy predicate *)


Lemma Q2R_Qcmult (x y : Qc) : Q2R (x * y)%Qc = (Q2R x * Q2R y)%R.
Proof.
  unfold Qcmult, Q2Qc. simpl.
  rewrite (Qeq_eqR _ _ (Qred_correct _)). apply Q2R_mult.
Qed.



Lemma Q2R_Qclt (x y : Qc) : (x < y)%Qc ↔ (Q2R x < Q2R y)%R.
Proof. split; [apply Qlt_Rlt|apply Rlt_Qlt]. Qed.

Lemma Q2R_Qcle (x y : Qc) : (x ≤ y)%Qc ↔ (Q2R x <= Q2R y)%R.
Proof. split; [apply Qle_Rle|apply Rle_Qle]. Qed.

Lemma Q2R_Qc0 : Q2R 0%Qc = 0%R.
Proof. apply RMicromega.Q2R_0. Qed.

Lemma Q2R_Qc_of_Z_2 : Q2R (Qc_of_Z 2) = 2%R.
Proof. unfold Q2R. simpl. lra. Qed.












(** ** The predicate in IEEE arithmetic *)











(** * Further properties *)

(** ** The result depends on the set of triangles *)

Lemma bounds_of_same_points (vectors vectors' : Mesh) :
  vectors ≠ [] → vectors' ≠ [] →
  (∀ p, p ∈ all_points_of vectors ↔ p ∈ all_points_of vectors') →
  bounds_of vectors = bounds_of vectors'.
Proof.
  intros Hne Hne' Hpts.
  destruct (bounds_of_spec vectors Hne) as (mn & mx & -> & Hmm).
  destruct (bounds_of_spec vectors' Hne') as (mn' & mx' & -> & Hmm').
  do 2 f_equal; apply vec3_eq; intros a _.
  - eapply is_min_of_unique; [exact Hpts|apply Hmm|apply Hmm'].
  - eapply is_max_of_unique; [exact Hpts|apply Hmm|apply Hmm'].
Qed.

Lemma stl_to_voxel_negative (vectors : Mesh) (resolution : Z) bounds :
  bounds_of vectors = Ok bounds → resolution < 0 →
  stl_to_voxel vectors resolution = Raise ValueError_negative_dimensions.
Proof.
  intros Hb Hneg. unfold stl_to_voxel. rewrite Hb. simpl.
  unfold np_zeros. by destruct (Z.ltb_spec resolution 0); [|lia].
Qed.

(** Two conversions that return grids of the same cells return the same
    grid. *)
Lemma stl_to_voxel_same_claims (vectors vectors' : Mesh) (resolution : Z) :
  vectors ≠ [] → vectors' ≠ [] →
  bounds_of vectors = bounds_of vectors' →
  (∀ bounds c,
     (∃ t, t ∈ vectors
           ∧ claims resolution (fst bounds)
                    (voxel_size_of bounds resolution) t c) ↔
     (∃ t, t ∈ vectors'
           ∧ claims resolution (fst bounds)
                    (voxel_size_of bounds resolution) t c)) →
  stl_to_voxel vectors resolution = stl_to_voxel vectors' resolution.
Proof.
  intros Hne Hne' Hb Hclaims.
  destruct (Z.lt_ge_cases resolution 0) as [Hneg|Hres].
  - destruct (bounds_of_spec vectors Hne) as (mn & mx & Hb1 & _).
    rewrite (stl_to_voxel_negative vectors resolution _ Hb1 Hneg).
    rewrite Hb in Hb1.
    by rewrite (stl_to_voxel_negative vectors' resolution _ Hb1 Hneg).
  - destruct (stl_to_voxel_spec vectors resolution Hne Hres) as
      (g & bounds & Hb1 & -> & Hg & Hcell).
    destruct (stl_to_voxel_spec vectors' resolution Hne' Hres) as
      (g' & bounds' & Hb2 & -> & Hg' & Hcell').
    assert (bounds' = bounds) as -> by congruence.
    f_equal. f_equal. apply (cube_cell_ext (Z.to_nat resolution)); [done..|].
    intros c. rewrite Hcell, Hcell'. apply Hclaims.
Qed.

(** X1: the conversion depends only on the set of triangles of the mesh:
    two meshes with the same triangles, whatever their order and however
    often each one is repeated, give the same result at every resolution.
    In particular a duplicated triangle changes nothing. *)
Theorem same_triangles_same_result
    (vectors vectors' : Mesh) (resolution : Z)
    (Hset : ∀ t, t ∈ vectors ↔ t ∈ vectors') :
  stl_to_voxel vectors resolution = stl_to_voxel vectors' resolution.
Proof.
  destruct vectors as [|t0 ts].
  { assert (vectors' = []) as ->; [|done].
    apply elem_of_nil_inv. intros t Ht%Hset. by apply elem_of_nil in Ht. }
  assert (vectors' ≠ []) as Hne'.
  { intros ->. assert (t0 ∈ @nil Triangle) as H by (apply Hset; left).
    by apply elem_of_nil in H. }
  apply stl_to_voxel_same_claims; [done..| |].
  - apply bounds_of_same_points; [done..|]. intros p.
    rewrite !elem_of_all_points.
    split; intros (t & Ht & Hp); exists t; split; try done; by apply Hset.
  - intros bounds c.
    split; intros (t & Ht & Hc); exists t; split; try done; by apply Hset.
Qed.

Lemma same_triangles_same_result_witness :
  stl_to_voxel (flat_triangle :: tetrahedron) 3 = stl_to_voxel tetrahedron 3.
Proof.
  apply (same_triangles_same_result (flat_triangle :: tetrahedron)
           tetrahedron 3).
  intros t. rewrite elem_of_cons. split; [|by right].
  intros [->|H]; [left|done].
Defined.

(** ** Meshes with the same bounding box *)

Lemma all_points_of_app (v w : Mesh) :
  all_points_of (v ++ w) = all_points_of v ++ all_points_of w.
Proof. unfold all_points_of. by rewrite fmap_app, join_app. Qed.

Lemma bounds_of_app (v w : Mesh) bounds :
  bounds_of v = Ok bounds → bounds_of w = Ok bounds →
  bounds_of (v ++ w) = Ok bounds.
Proof.
  intros Hv Hw.
  pose proof (bounds_of_is_Ok _ _ Hv) as Hnev.
  pose proof (bounds_of_is_Ok _ _ Hw) as Hnew.
  assert (v ++ w ≠ []) as Hne by (destruct v; done).
  destruct (bounds_of_spec v Hnev) as (mn & mx & Hv' & Hmmv).
  destruct (bounds_of_spec w Hnew) as (mn1 & mx1 & Hw' & Hmmw).
  destruct (bounds_of_spec (v ++ w) Hne) as (mn2 & mx2 & -> & Hmm).
  assert (bounds = (mn, mx)) as -> by congruence.
  assert (mn1 = mn ∧ mx1 = mx) as [-> ->] by (split; congruence).
  do 2 f_equal; apply vec3_eq; intros a _.
  - destruct (Hmm a) as [[(p & Hp & <-) Hlb] _].
    destruct (Hmmv a) as [[(q & Hq & Hqa) Hlbv] _].
    destruct (Hmmw a) as [[_ Hlbw] _].
    apply Qcle_antisym.
    + rewrite <- Hqa. apply Hlb. rewrite all_points_of_app, elem_of_app. by left.
    + rewrite all_points_of_app, elem_of_app in Hp. destruct Hp; auto.
  - destruct (Hmm a) as [_ [(p & Hp & <-) Hub]].
    destruct (Hmmv a) as [_ [(q & Hq & Hqa) Hubv]].
    destruct (Hmmw a) as [_ [_ Hubw]].
    apply Qcle_antisym.
    + rewrite all_points_of_app, elem_of_app in Hp. destruct Hp; auto.
    + rewrite <- Hqa. apply Hub. rewrite all_points_of_app, elem_of_app. by left.
Qed.

(** X2: for two meshes with the same bounding box and a resolution that is
    not negative, the three conversions return, with the same bounds, and the
    grid of the concatenated mesh is the cell-wise OR of the two grids. *)
Theorem concatenation_is_cellwise_or
    (v w : Mesh) (resolution : Z) (bounds : Point * Point)
    (Hv : bounds_of v = Ok bounds) (Hw : bounds_of w = Ok bounds)
    (Hres : 0 ≤ resolution) :
  ∃ gv gw g,
    stl_to_voxel v resolution = Ok (gv, bounds)
    ∧ stl_to_voxel w resolution = Ok (gw, bounds)
    ∧ stl_to_voxel (v ++ w) resolution = Ok (g, bounds)
    ∧ ∀ c, cell g c = cell gv c || cell gw c.
Proof.
  pose proof (bounds_of_is_Ok _ _ Hv) as Hnev.
  pose proof (bounds_of_is_Ok _ _ Hw) as Hnew.
  pose proof (bounds_of_app v w bounds Hv Hw) as Hvw.
  assert (v ++ w ≠ []) as Hne by (destruct v; done).
  destruct (stl_to_voxel_spec v resolution Hnev Hres) as
    (gv & bv & Hbv & Hrv & _ & Hcv).
  destruct (stl_to_voxel_spec w resolution Hnew Hres) as
    (gw & bw & Hbw & Hrw & _ & Hcw).
  destruct (stl_to_voxel_spec (v ++ w) resolution Hne Hres) as
    (g & b & Hb & Hr & _ & Hc).
  assert (bv = bounds) as -> by congruence.
  assert (bw = bounds) as -> by congruence.
  assert (b = bounds) as -> by congruence.
  exists gv, gw, g. split; [done|]. split; [done|]. split; [done|].
  intros c. apply eq_true_iff_eq. rewrite orb_true_iff, Hc, Hcv, Hcw.
  split.
  - intros (t & [Ht|Ht]%elem_of_app & Hcl); [left|right]; eauto.
  - intros [(t & Ht & Hcl)|(t & Ht & Hcl)]; exists t;
      (split; [apply elem_of_app; auto|done]).
Qed.

Lemma concatenation_is_cellwise_or_witness :
  ∃ gv gw g,
    stl_to_voxel (take 6 cube_mesh) 2
    = Ok (gv, (pt (-1) (-1) (-1), pt 1 1 1))
    ∧ stl_to_voxel (drop 6 cube_mesh) 2
      = Ok (gw, (pt (-1) (-1) (-1), pt 1 1 1))
    ∧ stl_to_voxel (take 6 cube_mesh ++ drop 6 cube_mesh) 2
      = Ok (g, (pt (-1) (-1) (-1), pt 1 1 1))
    ∧ ∀ c, cell g c = cell gv c || cell gw c.
Proof.
  apply (concatenation_is_cellwise_or (take 6 cube_mesh) (drop 6 cube_mesh) 2
           (pt (-1) (-1) (-1), pt 1 1 1)); [reflexivity|reflexivity|lia].
Defined.

(** ** The occupancy predicate on arbitrary values *)

Lemma root_min_is_nan (d1 d2 : np_root) :
  root_is_nan (root_min d1 d2) = root_is_nan d1 || root_is_nan d2.
Proof.
  unfold root_min.
  destruct (root_is_nan d1) eqn:E1; [done|].
  destruct (root_is_nan d2) eqn:E2; [done|].
  by destruct (fleb _ _).
Qed.

Lemma root_ltb_is_nan (d : np_root) (t : np_float) :
  root_is_nan d = true → root_ltb d t = false.
Proof. intros H. unfold root_ltb. by rewrite H. Qed.

(** On roots that are not NaN, [root_ltb] is monotone. *)
Lemma root_ltb_mono (d1 d2 : np_root) (t : np_float) :
  root_is_nan d1 = false →
  fleb (radicand d1) (radicand d2) = true →
  root_ltb d2 t = true → root_ltb d1 t = true.
Proof.
  destruct d1 as [r1], d2 as [r2]. unfold root_ltb, root_is_nan. simpl.
  intros H1 Hle.
  destruct r1 as [q1| | |], r2 as [q2| | |]; simpl in *; try done;
    try (destruct (Qcltb q2 0); done).
  rewrite H1. destruct (Qcltb q2 0%Qc); [done|].
  destruct t as [b| | |]; try done.
  rewrite !andb_true_iff, !Qcltb_lt. apply Qcleb_le in Hle.
  intros [Hb Hlt]. split; [done|]. by eapply Qcle_lt_trans.
Qed.

Lemma fleb_total (r1 r2 : np_float) :
  is_nan r1 = false → is_nan r2 = false →
  fleb r1 r2 = false → fleb r2 r1 = true.
Proof.
  destruct r1 as [q1| | |], r2 as [q2| | |]; simpl; try done.
  intros _ _ H%Qcleb_gt. by apply Qcleb_le, Qclt_le_weak.
Qed.

Lemma root_not_nan_radicand (d : np_root) :
  root_is_nan d = false → is_nan (radicand d) = false.
Proof. destruct d as [[]]; done. Qed.

Lemma root_ltb_min (d1 d2 : np_root) (t : np_float) :
  root_ltb (root_min d1 d2) t
  = negb (root_is_nan d1) && negb (root_is_nan d2)
    && (root_ltb d1 t || root_ltb d2 t).
Proof.
  unfold root_min.
  destruct (root_is_nan d1) eqn:E1; [by apply root_ltb_is_nan|].
  destruct (root_is_nan d2) eqn:E2; [by apply root_ltb_is_nan|]. simpl.
  destruct (fleb (radicand d1) (radicand d2)) eqn:Hle.
  - destruct (root_ltb d2 t) eqn:H2; [|by rewrite orb_false_r].
    by rewrite (root_ltb_mono d1 d2 t E1 Hle H2).
  - apply fleb_total in Hle; [|by apply root_not_nan_radicand..].
    destruct (root_ltb d1 t) eqn:H1; [|done].
    by rewrite (root_ltb_mono d2 d1 t E2 Hle H1).
Qed.

(** The predicate in terms of the single distances: it holds iff no distance
    is NaN and some vertex is closer than twice the threshold. *)
Lemma point_near_triangle_vertices point (triangle : Triangle) threshold :
  point_near_triangle point triangle threshold = true ↔
  (∀ v, v ∈ vertices triangle → root_is_nan (distance_to point v) = false)
  ∧ ∃ v, v ∈ vertices triangle
         ∧ root_ltb (distance_to point v) (fmul threshold (of_int 2)) = true.
Proof.
  unfold point_near_triangle, root_min3, vertices. simpl.
  fold (distance_to point (ax0 triangle)) (distance_to point (ax1 triangle))
       (distance_to point (ax2 triangle)).
  rewrite !root_ltb_min, root_min_is_nan.
  set (t2 := fmul threshold (of_int 2)).
  assert (H0 : ax0 triangle ∈ [ax0 triangle; ax1 triangle; ax2 triangle])
    by left.
  assert (H1 : ax1 triangle ∈ [ax0 triangle; ax1 triangle; ax2 triangle])
    by (right; left).
  assert (H2 : ax2 triangle ∈ [ax0 triangle; ax1 triangle; ax2 triangle])
    by (right; right; left).
  split.
  - rewrite !andb_true_iff, !negb_true_iff, !orb_false_iff, !orb_true_iff.
    intros [[[N0 N1] N2] H]. split.
    + intros v Hv. rewrite !elem_of_cons in Hv.
      destruct Hv as [->|[->|[->|Hv]]]; try done. by apply elem_of_nil in Hv.
    + rewrite N0, N1 in H. simpl in H. rewrite orb_true_iff in H.
      destruct H as [[H|H]|H]; eauto.
  - intros [Hn (v & Hv & H)].
    rewrite (Hn _ H0), (Hn _ H1), (Hn _ H2). simpl.
    rewrite !elem_of_cons in Hv.
    destruct Hv as [->|[->|[->|Hv]]]; [..|by apply elem_of_nil in Hv];
      rewrite H; by rewrite ?orb_true_r.
Qed.

Lemma point_near_triangle_perm
    (point : vec3 np_float) (t t' : Triangle) (threshold : np_float) :
  vertices t ≡ₚ vertices t' →
  point_near_triangle point t threshold
  = point_near_triangle point t' threshold.
Proof.
  intros Hperm.
  apply eq_true_iff_eq. rewrite !point_near_triangle_vertices.
  split; intros [Hn (v & Hv & H)]; (split; [|exists v; split; [|done]]).
  - intros w Hw. apply Hn. by rewrite Hperm.
  - by rewrite <- Hperm.
  - intros w Hw. apply Hn. by rewrite <- Hperm.
  - by rewrite Hperm.
Qed.

(** X3: the occupancy predicate does not depend on the order of the three
    vertices of the triangle: for every point and every threshold, also
    infinite or NaN ones, two triangles with the same vertices in a different
    order give the same answer. *)
Theorem predicate_ignores_vertex_order
    (point : vec3 np_float) (t t' : Triangle) (threshold : np_float)
    (Hperm : vertices t ≡ₚ vertices t') :
  point_near_triangle point t threshold
  = point_near_triangle point t' threshold.
Proof. by apply point_near_triangle_perm. Qed.

Lemma predicate_ignores_vertex_order_witness :
  point_near_triangle (V3 (of_int 2) NaN PInf)
                      (V3 (pt 0 0 0) (pt 1 0 0) (pt 0 1 0)) (of_int 1)
  = point_near_triangle (V3 (of_int 2) NaN PInf)
                        (V3 (pt 0 1 0) (pt 0 0 0) (pt 1 0 0)) (of_int 1).
Proof.
  apply (predicate_ignores_vertex_order (V3 (of_int 2) NaN PInf)
           (V3 (pt 0 0 0) (pt 1 0 0) (pt 0 1 0))
           (V3 (pt 0 1 0) (pt 0 0 0) (pt 1 0 0)) (of_int 1)).
  symmetry.
  exact (Permutation_cons_append [pt 0 0 0; pt 1 0 0] (pt 0 1 0)).
Defined.

(** ** The order of the vertices of a triangle *)

Lemma triangle_min_perm (t t' : Triangle) :
  vertices t ≡ₚ vertices t' → triangle_min t = triangle_min t'.
Proof.
  intros Hperm. apply vec3_eq. intros a _.
  eapply (is_min_of_unique a (vertices t) (vertices t'));
    [|apply foldl_min_spec..].
  intros p. by rewrite Hperm.
Qed.

Lemma triangle_max_perm (t t' : Triangle) :
  vertices t ≡ₚ vertices t' → triangle_max t = triangle_max t'.
Proof.
  intros Hperm. apply vec3_eq. intros a _.
  eapply (is_max_of_unique a (vertices t) (vertices t'));
    [|apply foldl_max_spec..].
  intros p. by rewrite Hperm.
Qed.

Lemma claims_vertex_perm resolution min_coords voxel_size (t t' : Triangle) c :
  vertices t ≡ₚ vertices t' →
  claims resolution min_coords voxel_size t c ↔
  claims resolution min_coords voxel_size t' c.
Proof.
  intros Hperm. unfold claims, occupied, voxel_min_of, voxel_max_of,
    voxel_min_raw, voxel_max_raw.
  rewrite (triangle_min_perm t t' Hperm), (triangle_max_perm t t' Hperm).
  destruct c as [[i j] k].
  by rewrite (point_near_triangle_perm _ t t' _ Hperm).
Qed.

Lemma Forall2_elem_of_l {A B} (R : A → B → Prop) (l : list A) (k : list B) x :
  Forall2 R l k → x ∈ l → ∃ y, y ∈ k ∧ R x y.
Proof.
  induction 1 as [|a b l k Hab _ IH]; [by intros ?%elem_of_nil|].
  intros [->|Hx]%elem_of_cons.
  - exists b. split; [left|done].
  - destruct (IH Hx) as (y & Hy & HR). exists y. split; [by right|done].
Qed.

Lemma Forall2_elem_of_r {A B} (R : A → B → Prop) (l : list A) (k : list B) y :
  Forall2 R l k → y ∈ k → ∃ x, x ∈ l ∧ R x y.
Proof.
  induction 1 as [|a b l k Hab _ IH]; [by intros ?%elem_of_nil|].
  intros [->|Hy]%elem_of_cons.
  - exists a. split; [left|done].
  - destruct (IH Hy) as (x & Hx & HR). exists x. split; [by right|done].
Qed.

(** X4: the order of the vertices inside the triangles (the winding) does
    not matter: when each triangle of a mesh is replaced by a triangle with
    the same three vertices in another order, the conversion gives the same
    result at every resolution. *)
Theorem winding_order_immaterial
    (vectors vectors' : Mesh) (resolution : Z)
    (Hperm : Forall2 (fun t t' => vertices t ≡ₚ vertices t') vectors vectors') :
  stl_to_voxel vectors resolution = stl_to_voxel vectors' resolution.
Proof.
  destruct Hperm as [|t0 t0' ts ts' H0 Hrest]; [done|].
  assert (Forall2 (fun t t' => vertices t ≡ₚ vertices t')
            (t0 :: ts) (t0' :: ts')) as Hall by (by constructor).
  apply stl_to_voxel_same_claims; [done..| |].
  - apply bounds_of_same_points; [done..|]. intros p.
    rewrite !elem_of_all_points. split.
    + intros (t & Ht & Hp).
      destruct (Forall2_elem_of_l _ _ _ t Hall Ht) as (t' & Ht' & HR).
      exists t'. split; [done|]. by rewrite <- HR.
    + intros (t' & Ht' & Hp).
      destruct (Forall2_elem_of_r _ _ _ t' Hall Ht') as (t & Ht & HR).
      exists t. split; [done|]. by rewrite HR.
  - intros bounds c. split.
    + intros (t & Ht & Hc).
      destruct (Forall2_elem_of_l _ _ _ t Hall Ht) as (t' & Ht' & HR).
      exists t'. split; [done|].
      exact (proj1 (claims_vertex_perm _ _ _ t t' c HR) Hc).
    + intros (t' & Ht' & Hc).
      destruct (Forall2_elem_of_r _ _ _ t' Hall Ht') as (t & Ht & HR).
      exists t. split; [done|].
      exact (proj2 (claims_vertex_perm _ _ _ t t' c HR) Hc).
Qed.

Lemma winding_order_immaterial_witness :
  stl_to_voxel [V3 (pt 0 0 0) (pt 1 2 0) (pt 0 1 3)] 2
  = stl_to_voxel [V3 (pt 0 1 3) (pt 0 0 0) (pt 1 2 0)] 2.
Proof.
  apply (winding_order_immaterial
           [V3 (pt 0 0 0) (pt 1 2 0) (pt 0 1 3)]
           [V3 (pt 0 1 3) (pt 0 0 0) (pt 1 2 0)] 2).
  apply Forall2_cons; [|apply Forall2_nil].
  symmetry. exact (Permutation_cons_append [pt 0 0 0; pt 1 2 0] (pt 0 1 3)).
Defined.

(** ** The threshold *)

Lemma Qc_of_Z_2_R (q : Qc) : Q2R (q * Qc_of_Z 2)%Qc = (2 * Q2R q)%R.
Proof. rewrite Q2R_Qcmult, Q2R_Qc_of_Z_2. lra. Qed.

Lemma fmul_2_finite (q : Qc) : fmul (Fin q) (of_int 2) = Fin (q * Qc_of_Z 2)%Qc.
Proof. reflexivity. Qed.

Lemma root_ltb_nonpositive (d : np_root) (threshold : np_float) :
  fleb threshold (of_int 0) = true ∨ threshold = NaN →
  root_ltb d (fmul threshold (of_int 2)) = false.
Proof.
  intros H. unfold root_ltb. destruct (root_is_nan d); [done|].
  destruct (radicand d) as [r| | |]; try done.
  destruct threshold as [q| | |]; try done.
  - destruct H as [H|H]; [|done]. simpl in H. apply Qcleb_le in H.
    rewrite fmul_2_finite. apply andb_false_iff. left.
    apply not_true_is_false. rewrite Qcltb_lt, Q2R_Qclt, Q2R_Qc0, Qc_of_Z_2_R.
    apply Q2R_Qcle in H. change (Q2R (Qc_of_Z 0)) with (Q2R 0%Qc) in H.
    rewrite Q2R_Qc0 in H. lra.
  - by destruct H.
Qed.

(** X5: a threshold that is zero, negative or NaN selects nothing: the
    predicate is false for every point and every triangle.  (This is the
    threshold of a conversion whose mesh has no extent on any axis.) *)
Theorem nonpositive_threshold_selects_nothing
    (point : vec3 np_float) (triangle : Triangle) (threshold : np_float)
    (H : fleb threshold (of_int 0) = true ∨ threshold = NaN) :
  point_near_triangle point triangle threshold = false.
Proof. unfold point_near_triangle. by apply root_ltb_nonpositive. Qed.

Lemma nonpositive_threshold_selects_nothing_witness :
  point_near_triangle (vmap Fin (pt 0 0 0)) flat_triangle (of_int 0) = false.
Proof.
  apply (nonpositive_threshold_selects_nothing
           (vmap Fin (pt 0 0 0)) flat_triangle (of_int 0)).
  left. reflexivity.
Defined.

Lemma root_ltb_threshold_mono (d : np_root) (T T' : np_float) :
  fleb T T' = true →
  root_ltb d (fmul T (of_int 2)) = true →
  root_ltb d (fmul T' (of_int 2)) = true.
Proof.
  unfold root_ltb. destruct (root_is_nan d); [done|].
  destruct (radicand d) as [r| | |]; try done.
  destruct T as [q| | |], T' as [q'| | |]; try done.
  intros Hle%Qcleb_le%Q2R_Qcle. rewrite !fmul_2_finite.
  rewrite !andb_true_iff, !Qcltb_lt, !Q2R_Qclt, !Q2R_Qcmult, !Q2R_Qc_of_Z_2,
    Q2R_Qc0.
  intros [Hpos Hlt]. split; [lra|]. nra.
Qed.

(** X6: the predicate is monotone in the threshold: a point that is near a
    triangle for a threshold is near it for every greater threshold. *)
Theorem predicate_monotone_in_threshold
    (point : vec3 np_float) (triangle : Triangle) (T T' : np_float)
    (Hle : fleb T T' = true)
    (Hnear : point_near_triangle point triangle T = true) :
  point_near_triangle point triangle T' = true.
Proof.
  unfold point_near_triangle in *. by eapply root_ltb_threshold_mono.
Qed.

Lemma predicate_monotone_in_threshold_witness :
  point_near_triangle (vmap Fin (pt 1 1 1)) flat_triangle (of_int 3) = true.
Proof.
  apply (predicate_monotone_in_threshold
           (vmap Fin (pt 1 1 1)) flat_triangle (of_int 1) (of_int 3));
    vm_compute; reflexivity.
Defined.

(** ** The voxel size where the division is exact *)

Lemma voxel_size_of_axis (bounds : Point * Point) (resolution : Z) (a : nat) :
  axis a (voxel_size_of bounds resolution)
  = fdiv (Fin (axis a (snd bounds) - axis a (fst bounds))%Qc)
         (of_int resolution).
Proof. unfold voxel_size_of. by rewrite axis_vmap, axis_vzip. Qed.

(** X7: the voxel size on an axis in the cases where the division does not
    round.  At resolution 0 it is +inf on an axis where the bounds differ and
    NaN on an axis where they are equal (NumPy divides by zero without
    raising); at a resolution of at least 1 it is 0 on an axis where the
    bounds are equal. *)
Theorem voxel_size_without_rounding
    (min_coords max_coords : Point) (resolution : Z) (a : nat) :
  let size_a := axis a (voxel_size_of (min_coords, max_coords) resolution) in
  (resolution = 0 →
     ((axis a min_coords < axis a max_coords)%Qc → size_a = PInf)
     ∧ (axis a min_coords = axis a max_coords → size_a = NaN))
  ∧ (1 ≤ resolution →
     axis a min_coords = axis a max_coords → size_a = Fin 0%Qc).
Proof.
  intros size_a. unfold size_a. rewrite voxel_size_of_axis. simpl. split.
  - intros ->. split.
    + intros Hlt. apply Qclt_minus_iff in Hlt.
      unfold fdiv, of_int. simpl.
      change (axis a max_coords + - axis a min_coords)%Qc
        with (axis a max_coords - axis a min_coords)%Qc in Hlt.
      apply Qcgt_alt in Hlt. by rewrite Hlt.
    + intros ->. by rewrite Qcminus_diag.
  - intros Hres ->. rewrite Qcminus_diag. unfold fdiv, of_int.
    rewrite (Qc_of_Z_pos _ Hres). f_equal. unfold Qcdiv. apply Qcmult_0_l.
Qed.

Lemma voxel_size_without_rounding_witness :
  axis 0 (voxel_size_of (pt 0 0 0, pt 1 1 0) 0) = PInf
  ∧ axis 2 (voxel_size_of (pt 0 0 0, pt 1 1 0) 0) = NaN
  ∧ axis 2 (voxel_size_of (pt 0 0 0, pt 1 1 0) 4) = Fin 0%Qc.
Proof.
  split; [|split].
  - apply (voxel_size_without_rounding (pt 0 0 0) (pt 1 1 0) 0 0);
      reflexivity.
  - apply (voxel_size_without_rounding (pt 0 0 0) (pt 1 1 0) 0 2);
      reflexivity.
  - apply (voxel_size_without_rounding (pt 0 0 0) (pt 1 1 0) 4 2);
      [lia|reflexivity].
Defined.

(** ** The counts of [display_voxels] *)

Lemma sum_list_indicator_le (l : list bool) :
  (sum_list ((fun b : bool => if b then 1 else 0) <$> l) ≤ length l)%nat.
Proof.
  induction l as [|x l IH]; [done|]. rewrite fmap_cons. simpl length.
  change (sum_list (?a :: ?k)) with (a + sum_list k)%nat. destruct x; lia.
Qed.

Lemma sum_list_indicator_0 (l : list bool) :
  sum_list ((fun b : bool => if b then 1%nat else 0%nat) <$> l) = 0%nat ↔
  ∀ b, b ∈ l → b = false.
Proof.
  induction l as [|x l IH].
  - split; [|done]. by intros _ b ?%elem_of_nil.
  - rewrite fmap_cons.
    change (sum_list (?a :: ?k)) with (a + sum_list k)%nat. split.
    + intros H b [->|Hb]%elem_of_cons.
      * destruct x; [simpl in H; lia|done].
      * apply IH; [|done]. destruct x; simpl in H; lia.
    + intros H. rewrite (H x) by left. simpl. apply IH.
      intros b Hb. apply H. by right.
Qed.

Lemma elem_of_cells (g : VoxelGrid) (b : bool) :
  b ∈ mjoin (mjoin g) ↔ ∃ i j k, get g i j k = Some b.
Proof.
  rewrite list_elem_of_join. split.
  - intros (row & Hb & (plane & Hrow & Hplane)%list_elem_of_join).
    apply list_elem_of_lookup in Hb as [k Hk], Hrow as [j Hj],
      Hplane as [i Hi].
    exists i, j, k. unfold get. rewrite Hi. simpl. by rewrite Hj.
  - intros (i & j & k & H). unfold get in H.
    destruct (g !! i) as [plane|] eqn:Hi; simpl in H; [|done].
    destruct (plane !! j) as [row|] eqn:Hj; simpl in H; [|done].
    exists row. split; [by eapply list_elem_of_lookup_2|].
    apply list_elem_of_join. exists plane.
    split; by eapply list_elem_of_lookup_2.
Qed.

Lemma np_sum_bounds (g : VoxelGrid) : 0 ≤ np_sum g ≤ Z.of_nat (size g).
Proof.
  unfold np_sum, size.
  pose proof (sum_list_indicator_le (mjoin (mjoin g))). lia.
Qed.

Lemma np_sum_0 (g : VoxelGrid) : np_sum g = 0 ↔ ∀ c, cell g c = false.
Proof.
  unfold np_sum.
  rewrite <- Nat2Z.inj_0, Nat2Z.inj_iff, sum_list_indicator_0. split.
  - intros H [[i j] k]. apply not_true_is_false.
    rewrite cell_true. intros (_ & _ & _ & Hget).
    assert (true = false) by (apply H, elem_of_cells; eauto). done.
  - intros H b (i & j & k & Hget)%elem_of_cells.
    specialize (H (Z.of_nat i, Z.of_nat j, Z.of_nat k)).
    destruct b; [|done]. apply not_true_iff_false in H. destruct H.
    apply cell_true. rewrite !Nat2Z.id. repeat split; lia || done.
Qed.

(** X12: the two counts that [display_voxels] prints for the grid of a
    conversion: the total is resolution^3, the number of filled voxels lies
    between 0 and the total, and no voxel is counted as filled iff every cell
    of the grid is false. *)
Theorem counts_of_a_conversion
    (vectors : Mesh) (resolution : Z) (g : VoxelGrid) (bounds : Point * Point)
    (Hrun : stl_to_voxel vectors resolution = Ok (g, bounds)) :
  ∃ filled,
    voxel_counts g = (resolution ^ 3, filled)
    ∧ 0 ≤ filled ≤ resolution ^ 3
    ∧ (filled = 0 ↔ ∀ c, cell g c = false).
Proof.
  destruct (stl_to_voxel_inv _ _ _ _ Hrun) as (g0 & Hb & _ & _).
  assert (0 ≤ resolution) as Hres.
  { destruct (Z.lt_ge_cases resolution 0) as [Hneg|]; [|done].
    rewrite (stl_to_voxel_negative _ _ _ Hb Hneg) in Hrun. done. }
  destruct (stl_to_voxel_spec vectors resolution (bounds_of_is_Ok _ _ Hb))
    as (g' & bounds' & _ & Hrun' & Hg & _); [done|].
  assert (g' = g) as -> by congruence.
  assert (Z.of_nat (size g) = resolution ^ 3) as Htotal.
  { rewrite (cube_size _ _ Hg), !Nat2Z.inj_mul, Z2Nat.id by lia. ring. }
  pose proof (np_sum_bounds g) as Hfilled. rewrite Htotal in Hfilled.
  exists (np_sum g). split; [|split; [done|apply np_sum_0]].
  unfold voxel_counts. by rewrite Htotal.
Qed.

Lemma counts_of_a_conversion_witness :
  ∃ filled,
    voxel_counts [[[true; true]; [true; true]]; [[true; true]; [true; false]]]
    = (2 ^ 3, filled)
    ∧ 0 ≤ filled ≤ 2 ^ 3
    ∧ (filled = 0 ↔
       ∀ c, cell [[[true; true]; [true; true]]; [[true; true]; [true; false]]]
                 c = false).
Proof.
  apply (counts_of_a_conversion cube_mesh 2
           [[[true; true]; [true; true]]; [[true; true]; [true; false]]]
           (pt (-1) (-1) (-1), pt 1 1 1)).
  vm_compute. reflexivity.
Defined.

(** ** No index error *)

(** X13: the conversion never raises an [IndexError], whatever the mesh and
    the resolution: every write into the grid is at an index of the grid. *)
Theorem conversion_raises_no_index_error (vectors : Mesh) (resolution : Z) :
  stl_to_voxel vectors resolution ≠ Raise IndexError_out_of_bounds.
Proof.
  destruct vectors as [|t ts]; [done|].
  destruct (Z.lt_ge_cases resolution 0) as [Hneg|Hres].
  - destruct (bounds_of_spec (t :: ts)) as (mn & mx & Hb & _); [done|].
    by rewrite (stl_to_voxel_negative _ _ _ Hb Hneg).
  - destruct (stl_to_voxel_spec (t :: ts) resolution) as
      (g & bounds & _ & Hrun & _); [done..|].
    by rewrite Hrun.
Qed.

(** ** Adding triangles inside the bounding box *)

Lemma bounds_of_app_inside (v w : Mesh) (mn mx : Point) :
  bounds_of v = Ok (mn, mx) →
  (∀ t p a, t ∈ w → p ∈ vertices t →
            (axis a mn ≤ axis a p)%Qc ∧ (axis a p ≤ axis a mx)%Qc) →
  bounds_of (v ++ w) = Ok (mn, mx).
Proof.
  intros Hv Hw.
  pose proof (bounds_of_is_Ok _ _ Hv) as Hnev.
  assert (v ++ w ≠ []) as Hne by (destruct v; done).
  destruct (bounds_of_spec v Hnev) as (mn1 & mx1 & Hv' & Hmmv).
  destruct (bounds_of_spec (v ++ w) Hne) as (mn2 & mx2 & -> & Hmm).
  assert (mn1 = mn ∧ mx1 = mx) as [-> ->] by (split; congruence).
  assert (Hall : ∀ p a, p ∈ all_points_of (v ++ w) →
            (axis a mn ≤ axis a p)%Qc ∧ (axis a p ≤ axis a mx)%Qc).
  { intros p a. rewrite all_points_of_app, elem_of_app.
    intros [Hp|(t & Ht & Hp)%elem_of_all_points]; [|by eapply Hw].
    destruct (Hmmv a) as [[_ Hlb] [_ Hub]]. split; auto. }
  do 2 f_equal; apply vec3_eq; intros a _.
  - destruct (Hmm a) as [[(p & Hp & <-) Hlb] _].
    destruct (Hmmv a) as [[(q & Hq & Hqa) _] _].
    apply Qcle_antisym.
    + rewrite <- Hqa. apply Hlb. rewrite all_points_of_app, elem_of_app. by left.
    + by apply Hall.
  - destruct (Hmm a) as [_ [(p & Hp & <-) Hub]].
    destruct (Hmmv a) as [_ [(q & Hq & Hqa) _]].
    apply Qcle_antisym.
    + by apply Hall.
    + rewrite <- Hqa. apply Hub. rewrite all_points_of_app, elem_of_app. by left.
Qed.

(** X14: adding triangles that lie inside the bounding box of the mesh only
    adds cells.  When every vertex of the added triangles lies within the
    bounds of the mesh and the resolution is not negative, the bounds do not
    change, every cell that was true stays true, and the new true cells are
    the ones that the added triangles claim. *)
Theorem triangles_inside_bounds_only_add
    (v w : Mesh) (resolution : Z) (min_coords max_coords : Point)
    (Hv : bounds_of v = Ok (min_coords, max_coords))
    (Hw : ∀ t p a, t ∈ w → p ∈ vertices t →
            (axis a min_coords ≤ axis a p)%Qc
            ∧ (axis a p ≤ axis a max_coords)%Qc)
    (Hres : 0 ≤ resolution) :
  ∃ g g',
    stl_to_voxel v resolution = Ok (g, (min_coords, max_coords))
    ∧ stl_to_voxel (v ++ w) resolution = Ok (g', (min_coords, max_coords))
    ∧ grid_le g g'
    ∧ ∀ c, cell g' c = true ↔
           cell g c = true
           ∨ ∃ t, t ∈ w
                  ∧ claims resolution min_coords
                      (voxel_size_of (min_coords, max_coords) resolution) t c.
Proof.
  pose proof (bounds_of_is_Ok _ _ Hv) as Hnev.
  pose proof (bounds_of_app_inside v w _ _ Hv Hw) as Hvw.
  assert (v ++ w ≠ []) as Hne by (destruct v; done).
  destruct (stl_to_voxel_spec v resolution Hnev Hres) as
    (g & b & Hb & Hr & _ & Hc).
  destruct (stl_to_voxel_spec (v ++ w) resolution Hne Hres) as
    (g' & b' & Hb' & Hr' & _ & Hc').
  assert (b = (min_coords, max_coords)) as -> by congruence.
  assert (b' = (min_coords, max_coords)) as -> by congruence.
  simpl in Hc, Hc'.
  assert (Hiff : ∀ c, cell g' c = true ↔
            cell g c = true
            ∨ ∃ t, t ∈ w
                   ∧ claims resolution min_coords
                       (voxel_size_of (min_coords, max_coords) resolution) t c).
  { intros c. rewrite Hc', Hc. split.
    - intros (t & [Ht|Ht]%elem_of_app & Hcl); [left|right]; eauto.
    - intros [(t & Ht & Hcl)|(t & Ht & Hcl)]; exists t;
        (split; [apply elem_of_app; auto|done]). }
  exists g, g'. split; [done|]. split; [done|]. split; [|done].
  intros c Hcell. apply Hiff. by left.
Qed.

Lemma triangles_inside_bounds_only_add_witness :
  ∃ g g',
    stl_to_voxel tetrahedron 3 = Ok (g, (pt 0 0 0, pt 1 1 1))
    ∧ stl_to_voxel (tetrahedron ++ [V3 (pt 1 1 0) (pt 1 0 1) (pt 0 1 1)]) 3
      = Ok (g', (pt 0 0 0, pt 1 1 1))
    ∧ grid_le g g'
    ∧ ∀ c, cell g' c = true ↔
           cell g c = true
           ∨ ∃ t, t ∈ [V3 (pt 1 1 0) (pt 1 0 1) (pt 0 1 1)]
                  ∧ claims 3 (pt 0 0 0)
                      (voxel_size_of (pt 0 0 0, pt 1 1 1) 3) t c.
Proof.
  apply (triangles_inside_bounds_only_add tetrahedron
           [V3 (pt 1 1 0) (pt 1 0 1) (pt 0 1 1)] 3 (pt 0 0 0) (pt 1 1 1)).
  - reflexivity.
  - intros t p a ->%list_elem_of_singleton Hp.
    unfold vertices in Hp. simpl in Hp. rewrite !elem_of_cons in Hp.
    destruct Hp as [->|[->|[->|Hp]]]; [..|by apply elem_of_nil in Hp];
      destruct a as [|[|?]]; split; discriminate.
  - lia.
Defined.
